(** * NAT pinger (nat/traversal/pinger.go) and wireguard connection: a
      shallow embedding

    The Go code is a set of goroutines talking to the network, to timers and
    to two unbuffered channels.  Each function of the source is embedded as a
    function from what the environment does (how long a [Read] blocks and what
    it returns, whether [SetTTL] and [Write] fail, which requests are put on
    the queue) to the list of effects the goroutine performs, in program
    order, together with the way the call ends: it returns, or it blocks for
    ever at a named program point.  The wireguard [Connection] is embedded
    in [Module Wireguard] as a state and panic monad over its fields. *)

From Stdlib Require Import ZArith List String Bool Lia.
Import ListNotations.
Open Scope string_scope.
Open Scope list_scope.
Open Scope Z_scope.

(** ** Constants (pinger.go, lines 35-37) *)

Definition prefix : string := "[NATPinger] ".
Definition pingInterval : Z := 200.
Definition pingTimeout : Z := 10000.

(** ** Data *)

(** A Go [error] is its message; [nil] is [None]. *)
Definition error : Type := string.

(** [services.ServiceType] is a string type; [json.RawMessage] is a byte
    string, kept opaque here (only the parser looks inside). *)
Definition ServiceType : Type := string.
Definition RawMessage : Type := string.

(** [type Params struct { RequestConfig json.RawMessage; Port int }] *)
Record Params : Type := mkParams {
  RequestConfig : RawMessage;
  Port : Z
}.

(** The event of the NAT event waiter: only its [Type] field is read. *)
Record Event : Type := mkEvent {
  Type_ : string
}.

(** *** The interfaces the Pinger is built from *)

(** [WaitForEvent() Event]: a blocking call; the model holds the event the
    call delivers. *)
Record NatEventWaiter : Type := mkWaiter {
  WaitForEvent : Event
}.

(** [Parse(config) (ip, port, serviceType, err)]: all four results are
    produced on every call, also when [err] is not nil. *)
Record Parsed : Type := mkParsed {
  pIP : string;
  pPort : Z;
  pServiceType : ServiceType;
  pErr : option error
}.

Record ConfigParser : Type := mkParser {
  Parse : RawMessage -> Parsed
}.

(** [Acquire() (port.Port, error)] *)
Record PortSupplier : Type := mkSupplier {
  Acquire : Z + error
}.

(** [natProxy]: [isAvailable] is a query; [handOff] and
    [registerServicePort] are effects, see [Effect]. *)
Record NatProxy : Type := mkProxy {
  isAvailable : ServiceType -> bool
}.

(** [type Pinger struct].  The two channels are not fields of the model:
    [pingTarget] is the queue of requests a run is given, [pingCancelled] is
    the rendezvous between receiver and sender.  [sync.Once] is never used. *)
Record Pinger : Type := mkPinger {
  natEventWaiter : NatEventWaiter;
  configParser : ConfigParser;
  natProxy : NatProxy;
  portPool : PortSupplier;
  consumerPort : Z
}.

(** [NewPingerFactory]: [consumerPort] is not initialised, so it holds the
    zero value of [int]. *)
Definition NewPingerFactory (waiter : NatEventWaiter) (parser : ConfigParser)
    (proxy : NatProxy) (pool : PortSupplier) : Pinger :=
  {| natEventWaiter := waiter;
     configParser := parser;
     natProxy := proxy;
     portPool := pool;
     consumerPort := 0 |}.

(** [BindConsumerPort] *)
Definition BindConsumerPort (p : Pinger) (port : Z) : Pinger :=
  {| natEventWaiter := natEventWaiter p;
     configParser := configParser p;
     natProxy := natProxy p;
     portPool := portPool p;
     consumerPort := port |}.

(** ** Effects *)

Inductive Level : Type := Info | Warn | Error | Trace.

(** A socket is named by the number the run gave it when it was dialled. *)
Definition Conn : Type := nat.

Inductive ReadResult : Type :=
| ReadOk (n : Z)          (* n bytes, err == nil *)
| ReadErr (e : error).    (* err != nil *)

Inductive Effect : Type :=
| Log (l : Level) (msg : string)
| Println (n : Z)                       (* fmt.Println of buf[:n] *)
| Waited (e : Event)                    (* natEventWaiter.WaitForEvent() *)
| Recv_pingTarget (pp : Params)         (* pingParams := <-p.pingTarget *)
| Send_pingCancelled                    (* p.pingCancelled <- struct{}{}, taken *)
| Recv_pingCancelled                    (* <-p.pingCancelled *)
| After (ms : Z)                        (* <-time.After(ms) *)
| Sleep (ms : Z)                        (* time.Sleep(ms) *)
| Resolved (ip : string) (port : Z) (e : option error)
| Dialed (localPort : Z) (ip : string) (port : Z) (r : Conn + error)
| SetTTL (c : Conn) (n : Z)
| Write (c : Conn)
| Read (c : Conn) (took : Z) (r : ReadResult)
| Close (c : Conn)
| Go_ping (c : Conn)                    (* go func() { p.ping(conn) }() *)
| Go_handOff (st : ServiceType) (c : Conn).

(** Where a goroutine can stay for ever. *)
Inductive BlockPoint : Type :=
| InSelect        (* ping: no tick left and no cancellation *)
| InRead          (* conn.Read with nothing to deliver *)
| OnCancelSend    (* p.pingCancelled <- with nobody receiving *)
| OnQueue.        (* <-p.pingTarget with an empty queue *)

Inductive Outcome (A : Type) : Type :=
| Returned (a : A)
| Blocked (at_ : BlockPoint).
Arguments Returned {A} a.
Arguments Blocked {A} at_.

(** A run: its effects in order, and how it ended. *)
Definition Run (A : Type) : Type := (list Effect * Outcome A)%type.

Definition ret {A : Type} (a : A) : Run A := ([], Returned a).

Definition bind {A B : Type} (m : Run A) (k : A -> Run B) : Run B :=
  match m with
  | (t, Returned a) => let (t', o) := k a in (t ++ t', o)
  | (t, Blocked b) => (t, Blocked b)
  end.

Definition emit (e : Effect) : Run unit := ([e], Returned tt).
Definition block {A : Type} (b : BlockPoint) : Run A := ([], Blocked b).

Notation "x <- m ;; k" := (bind m (fun x => k))
  (at level 61, m at next level, right associativity).
Notation "m ;; k" := (bind m (fun _ => k))
  (at level 61, right associativity).

(** Wall-clock time a list of effects takes: timers, sleeps and the time
    spent blocked in [Read]; everything else is taken as instantaneous. *)
Definition duration (e : Effect) : Z :=
  match e with
  | After ms => ms
  | Sleep ms => ms
  | Read _ took _ => took
  | _ => 0
  end.

Fixpoint elapsed (t : list Effect) : Z :=
  match t with
  | [] => 0
  | e :: t' => duration e + elapsed t'
  end.

(** ** The sender: [ping] (lines 180-212) *)

(** What the socket answers at one tick. *)
Record TickIO : Type := mkTick {
  ttlErr : option error;      (* result of SetTTL *)
  writeErr : option error     (* result of conn.Write *)
}.

(** What the [select] of the sender picks, iteration after iteration. *)
Inductive SenderInput : Type :=
| Cancel
| Tick (io : TickIO).

Fixpoint pingLoop (conn : Conn) (n : Z) (sched : list SenderInput)
    : Run (option error) :=
  match sched with
  | [] => block InSelect
  | Cancel :: _ =>
      emit Recv_pingCancelled ;;
      ret None
  | Tick io :: rest =>
      emit (After pingInterval) ;;
      emit (Log Trace "pinging.. ") ;;
      let n := if 4 <? n then 128 else n in
      emit (SetTTL conn n) ;;
      match ttlErr io with
      | Some e => ret (Some ("pinger setting ttl failed: " ++ e)%string)
      | None =>
          let n := n + 1 in
          emit (Write conn) ;;
          match writeErr io with
          | Some e => ret (Some e)
          | None => pingLoop conn n rest
          end
      end
  end.

Definition ping (conn : Conn) (sched : list SenderInput) : Run (option error) :=
  pingLoop conn 1 sched.

(** Is the sender still in its [select] after these ticks, ready to take a
    cancellation?  It is not once [SetTTL] or [Write] has failed. *)
Definition senderListening (conn : Conn) (ticks : list TickIO) : bool :=
  match snd (ping conn (map Tick ticks)) with
  | Blocked InSelect => true
  | _ => false
  end.

(** The TTL values the sender sets, each with the time since [ping] was
    entered. *)
Fixpoint ttlTimeline (now : Z) (t : list Effect) : list (Z * Z) :=
  match t with
  | [] => []
  | SetTTL _ n :: t' => (now, n) :: ttlTimeline now t'
  | e :: t' => ttlTimeline (now + duration e) t'
  end.

(** The number of times [SetTTL] is reached under a schedule. *)
Fixpoint ttlCalls (sched : list SenderInput) : nat :=
  match sched with
  | [] => 0%nat
  | Cancel :: _ => 0%nat
  | Tick io :: rest =>
      match ttlErr io, writeErr io with
      | None, None => S (ttlCalls rest)
      | _, _ => 1%nat
      end
  end.

(** The sequence 1, 2, 3, 4, 128, 128, ... *)
Definition ttlAt (k : nat) : Z :=
  if (k <? 4)%nat then Z.of_nat k + 1 else 128.

(** The counter [n] at the top of iteration [k]. *)
Definition counterAt (k : nat) : Z :=
  if (k <=? 4)%nat then Z.of_nat k + 1 else 129.

(** ** The receiver: [pingReceiver] (lines 247-274) *)

(** One call of [conn.Read]: how long it blocks and what it returns.  No read
    deadline is ever set on the socket, so a call returns only when the
    network delivers something; a socket whose list of calls is used up
    delivers nothing any more. *)
Record ReadCall : Type := mkRead {
  took : Z;
  result : ReadResult
}.

(** [p.pingCancelled <- struct{}{}] on the unbuffered channel: taken at once
    by a sender that sits in its [select], never taken otherwise. *)
Definition send_pingCancelled (listening : bool) : Run unit :=
  if listening then emit Send_pingCancelled else block OnCancelSend.

(** The [for] loop; [sinceEntry] is the time since [timeout] was created, so
    [case <-timeout] is ready when [pingTimeout <= sinceEntry]. *)
Fixpoint receiveLoop (conn : Conn) (listening : bool) (sinceEntry : Z)
    (reads : list ReadCall) : Run (option error) :=
  if pingTimeout <=? sinceEntry then
    send_pingCancelled listening ;;
    ret (Some "NAT punch attempt timed out")
  else
    match reads with
    | [] => block InRead
    | r :: rest =>
        emit (Read conn (took r) (result r)) ;;
        match result r with
        | ReadErr e =>
            emit (Log Error "Failed to read remote peer") ;;
            emit (Sleep pingInterval) ;;
            receiveLoop conn listening (sinceEntry + took r + pingInterval) rest
        | ReadOk n =>
            emit (Println n) ;;
            emit (After (2 * pingInterval)) ;;
            send_pingCancelled listening ;;
            ret None
        end
    end.

Definition pingReceiver (conn : Conn) (listening : bool)
    (reads : list ReadCall) : Run (option error) :=
  receiveLoop conn listening 0 reads.

(** ** Sockets: [getConnection] (lines 214-230) *)

(** What the network does to one punch attempt. *)
Record NetEnv : Type := mkNet {
  resolveErr : option error;   (* net.ResolveUDPAddr *)
  dialErr : option error;      (* net.DialUDP *)
  ticks : list TickIO;         (* the sender's ticks before the receiver
                                  offers the cancellation *)
  reads : list ReadCall        (* the receiver's reads *)
}.

Definition getConnection (fresh : Conn) (net : NetEnv) (ip : string)
    (port pingerPort : Z) : Run (Conn + error) :=
  emit (Resolved ip port (resolveErr net)) ;;
  match resolveErr net with
  | Some e => ret (inr e)
  | None =>
      emit (Log Info "remote socket: ") ;;
      match dialErr net with
      | Some e =>
          emit (Dialed pingerPort ip port (inr e)) ;;
          ret (inr e)
      | None =>
          emit (Dialed pingerPort ip port (inl fresh)) ;;
          emit (Log Info "local socket: ") ;;
          ret (inl fresh)
      end
  end.

(** ** The provider side: [Start] (lines 92-144) *)

(** A request put on [pingTarget], with what the network will do to the
    attempt made for it. *)
Record Arrival : Type := mkArrival {
  request : Params;
  net : NetEnv
}.

(** What follows the decode in one iteration (lines 110-141). *)
Definition punch (p : Pinger) (fresh : Conn) (pingParams : Params)
    (env : NetEnv) (IP : string) (port : Z) (serviceType : ServiceType)
    : Run unit :=
  if negb (isAvailable (natProxy p) serviceType) then
    emit (Log Warn " NATProxy is not available for this transport protocol")
  else
    emit (Log Info "ping target received") ;;
    if port =? 0 then ret tt
    else
      c <- getConnection fresh env IP port (Port pingParams) ;;
      match c with
      | inr e => emit (Log Error "failed to get connection: ")
      | inl conn =>
          emit (Go_ping conn) ;;
          err <- pingReceiver conn (senderListening conn (ticks env))
                   (reads env) ;;
          match err with
          | Some e => emit (Log Error "ping receiver error: ")
          | None =>
              emit (Log Info "ping received, waiting for a new connection") ;;
              emit (Go_handOff serviceType conn)
          end
      end.

(** One iteration of the [for] loop, for the request it takes off the
    queue. *)
Definition serve (p : Pinger) (fresh : Conn) (a : Arrival) : Run unit :=
  let pingParams := request a in
  emit (Recv_pingTarget pingParams) ;;
  emit (Log Info "Pinging peer with") ;;
  let r := Parse (configParser p) (RequestConfig pingParams) in
  match pErr r with
  | Some e => emit (Log Warn ("unable to parse ping message: " ++ e)%string)
  | None => ret tt
  end ;;
  punch p fresh pingParams (net a) (pIP r) (pPort r) (pServiceType r).

(** The [for] loop: the socket dialled for the [i]-th request is socket
    [i]. *)
Fixpoint dispatchLoop (p : Pinger) (fresh : Conn) (queue : list Arrival)
    : Run unit :=
  match queue with
  | [] => block OnQueue
  | a :: rest =>
      serve p fresh a ;;
      dispatchLoop p (S fresh) rest
  end.

Section Dispatch.

(** The constant [SuccessEventType] is declared in another file of the
    package. *)
Variable SuccessEventType : string.

Definition Start (p : Pinger) (queue : list Arrival) : Run unit :=
  emit (Log Info "Starting a NAT pinger") ;;
  let ev := WaitForEvent (natEventWaiter p) in
  emit (Waited ev) ;;
  if String.eqb (Type_ ev) SuccessEventType then ret tt
  else dispatchLoop p 0%nat queue.

End Dispatch.

(** ** The consumer side: [PingProvider] (lines 152-178) *)

Definition PingProvider (p : Pinger) (fresh : Conn) (env : NetEnv)
    (ip : string) (port : Z) : Run (option error) :=
  emit (Log Info "NAT pinging to provider") ;;
  c <- getConnection fresh env ip port (consumerPort p) ;;
  match c with
  | inr e => ret (Some ("failed to get connection: " ++ e)%string)
  | inl conn =>
      (* defer conn.Close(): runs on each return below *)
      emit (Go_ping conn) ;;
      emit (Sleep pingInterval) ;;
      err <- pingReceiver conn (senderListening conn (ticks env))
               (reads env) ;;
      match err with
      | Some e =>
          emit (Close conn) ;;
          ret (Some e)
      | None =>
          emit (Sleep 200) ;;
          emit (Close conn) ;;
          ret None
      end
  end.

(** ** Observations on traces *)

Definition sockets_opened (t : list Effect) : nat :=
  List.length (filter (fun e => match e with
                                | Dialed _ _ _ (inl _) => true
                                | _ => false
                                end) t).

Definition handoffs_of (c : Conn) (t : list Effect) : nat :=
  List.length (filter (fun e => match e with
                                | Go_handOff _ c' => Nat.eqb c c'
                                | _ => false
                                end) t).

Definition closes_of (c : Conn) (t : list Effect) : nat :=
  List.length (filter (fun e => match e with
                                | Close c' => Nat.eqb c c'
                                | _ => false
                                end) t).

Definition cancellations (t : list Effect) : nat :=
  List.length (filter (fun e => match e with
                                | Send_pingCancelled => true
                                | _ => false
                                end) t).

Definition datagrams (t : list Effect) : nat :=
  List.length (filter (fun e => match e with
                                | Read _ _ (ReadOk _) => true
                                | _ => false
                                end) t).

(** The local ports the sockets of a trace were dialled from. *)
Fixpoint localPorts (t : list Effect) : list Z :=
  match t with
  | [] => []
  | Dialed lp _ _ _ :: t' => lp :: localPorts t'
  | _ :: t' => localPorts t'
  end.

(** Time taken by a run of failed reads, each followed by its sleep. *)
Fixpoint span (errs : list ReadCall) : Z :=
  match errs with
  | [] => 0
  | r :: rest => took r + pingInterval + span rest
  end.

(** What the receiver does on a run of failed reads. *)
Fixpoint errTrace (conn : Conn) (errs : list ReadCall) : list Effect :=
  match errs with
  | [] => []
  | r :: rest =>
      Read conn (took r) (result r)
      :: Log Error "Failed to read remote peer"
      :: Sleep pingInterval
      :: errTrace conn rest
  end.

Definition failedRead (r : ReadCall) : bool :=
  match result r with
  | ReadErr _ => true
  | ReadOk _ => false
  end.

(** A run that first performs the effects [t]. *)
Definition prepend {A : Type} (t : list Effect) (r : Run A) : Run A :=
  (t ++ fst r, snd r).


(** *** Attempts in flight *)

(** An attempt is in flight from the launch of its sender ([go ping]) until
    the receiver has handed the cancellation to the sender, which is the last
    thing [pingReceiver] does before it returns, with success or with the
    timeout error. *)
Definition delta (e : Effect) : Z :=
  match e with
  | Go_ping _ => 1
  | Send_pingCancelled => -1
  | _ => 0
  end.

Fixpoint inFlight (t : list Effect) : Z :=
  match t with
  | [] => 0
  | e :: t' => delta e + inFlight t'
  end.

Definition isDequeue (e : Effect) : bool :=
  match e with
  | Recv_pingTarget _ => true
  | _ => false
  end.

(** From [d] attempts in flight, the trace never has more than one attempt in
    flight and takes a request off the queue only when none is. *)
Fixpoint serialFrom (d : Z) (t : list Effect) : Prop :=
  match t with
  | [] => True
  | e :: t' =>
      (isDequeue e = true -> d = 0)
      /\ 0 <= d + delta e <= 1
      /\ serialFrom (d + delta e) t'
  end.

(** The requests a trace takes off the queue, in order. *)
Fixpoint dequeued (t : list Effect) : list Params :=
  match t with
  | [] => []
  | Recv_pingTarget pp :: t' => pp :: dequeued t'
  | _ :: t' => dequeued t'
  end.

(** The effects [pingReceiver] can perform. *)
Definition receiverEffect (e : Effect) : bool :=
  match e with
  | Read _ _ _ | Log _ _ | Sleep _ | Println _ | After _
  | Send_pingCancelled => true
  | _ => false
  end.

(** What one iteration does before it looks at the decoded values. *)
Definition decodeTrace (pp : Params) (r : Parsed) : list Effect :=
  Recv_pingTarget pp
  :: Log Info "Pinging peer with"
  :: match pErr r with
     | Some e => [Log Warn ("unable to parse ping message: " ++ e)%string]
     | None => []
     end.

(** *** Variations of a Pinger *)

Definition withParser (p : Pinger) (c : ConfigParser) : Pinger :=
  {| natEventWaiter := natEventWaiter p;
     configParser := c;
     natProxy := natProxy p;
     portPool := portPool p;
     consumerPort := consumerPort p |}.

Definition withPool (p : Pinger) (pool : PortSupplier) : Pinger :=
  {| natEventWaiter := natEventWaiter p;
     configParser := configParser p;
     natProxy := natProxy p;
     portPool := pool;
     consumerPort := consumerPort p |}.

(** The parser that decodes to the same three values and reports no error. *)
Definition withoutErr (c : ConfigParser) : ConfigParser :=
  {| Parse := fun raw =>
       let r := Parse c raw in
       {| pIP := pIP r; pPort := pPort r; pServiceType := pServiceType r;
          pErr := None |} |}.

(** The reading of the data-flow sentence: every socket of the trace is
    dialled from the port the Port Supplier's [Acquire] hands out. *)
Definition port_from_supplier (p : Pinger) (t : list Effect) : Prop :=
  forall lp : Z, In lp (localPorts t) -> Acquire (portPool p) = inl lp.

(** *** Sample inputs *)

Definition refused : ReadCall := mkRead 0 (ReadErr "connection refused").
Definition okTick : TickIO := mkTick None None.

Definition samplePinger : Pinger :=
  NewPingerFactory
    (mkWaiter (mkEvent "failure"))
    (mkParser (fun _ => mkParsed "10.0.0.5" 51000 "wireguard" None))
    (mkProxy (fun _ => true))
    (mkSupplier (inl 5000)).

(** A peer that answers 600 ms into the race. *)
Definition answering : NetEnv :=
  mkNet None None (repeat okTick 3) [mkRead 600 (ReadOk 5)].

(** A peer whose host refuses every read, 50 times 200 ms. *)
Definition refusing : NetEnv :=
  mkNet None None (repeat okTick 50) (repeat refused 50).

Definition sampleRequest : Params := mkParams "{}" 6000.

(** ** Further observations *)

Definition writes (t : list Effect) : nat :=
  List.length (filter (fun e => match e with
                                | Write _ => true
                                | _ => false
                                end) t).

Definition ttlSets (t : list Effect) : nat :=
  List.length (filter (fun e => match e with
                                | SetTTL _ _ => true
                                | _ => false
                                end) t).

Definition launches (t : list Effect) : nat :=
  List.length (filter (fun e => match e with
                                | Go_ping _ => true
                                | _ => false
                                end) t).

Definition handoffs (t : list Effect) : nat :=
  List.length (filter (fun e => match e with
                                | Go_handOff _ _ => true
                                | _ => false
                                end) t).

(** Network effects: resolving, dialling, reading, writing, setting the
    TTL. *)
Definition networkEffect (e : Effect) : bool :=
  match e with
  | Resolved _ _ _ | Dialed _ _ _ _ | SetTTL _ _ | Write _ | Read _ _ _ => true
  | _ => false
  end.

(** A tick at which both [SetTTL] and [Write] succeed. *)
Definition tickOk (io : TickIO) : bool :=
  match ttlErr io, writeErr io with
  | None, None => true
  | _, _ => false
  end.

(** The effects of [m] successful ticks, the first of them being tick [k]
    of the sender. *)
Fixpoint tickTrace (conn : Conn) (k : nat) (m : nat) : list Effect :=
  match m with
  | O => []
  | S m' =>
      After pingInterval :: Log Trace "pinging.. " :: SetTTL conn (ttlAt k)
      :: Write conn :: tickTrace conn (S k) m'
  end.

(** The error [ping] returns at a tick that fails. *)
Definition tickError (io : TickIO) : option error :=
  match ttlErr io with
  | Some e => Some ("pinger setting ttl failed: " ++ e)%string
  | None => writeErr io
  end.

(** A request the loop passes over before it touches the network: its proxy
    is not available, or its decoded port is zero. *)
Definition skipped (p : Pinger) (a : Arrival) : bool :=
  let r := Parse (configParser p) (RequestConfig (request a)) in
  negb (isAvailable (natProxy p) (pServiceType r)) || (pPort r =? 0).

(** A request whose socket cannot be opened. *)
Definition undialable (a : Arrival) : bool :=
  match resolveErr (net a), dialErr (net a) with
  | None, None => false
  | _, _ => true
  end.

(** Effects that are neither network nor channel traffic nor a goroutine
    launch. *)
Definition bookkeeping (e : Effect) : bool :=
  match e with
  | Log _ _ | Waited _ | Recv_pingTarget _ => true
  | _ => false
  end.

(** Bookkeeping, and the effects of a [getConnection] that fails. *)
Definition noAttempt (e : Effect) : bool :=
  match e with
  | Log _ _ | Waited _ | Recv_pingTarget _ | Resolved _ _ _
  | Dialed _ _ _ (inr _) => true
  | _ => false
  end.

(** The race run for the [i]-th request of the queue. *)
Definition raceOf (i : nat) (a : Arrival) : Run (option error) :=
  pingReceiver i (senderListening i (ticks (net a))) (reads (net a)).

Definition returns {A : Type} (r : Run A) : bool :=
  match snd r with
  | Returned _ => true
  | Blocked _ => false
  end.


(** ** The wireguard connection (package [connection])

    [Connection] drives a connection endpoint and reports its state on a
    channel.  The model threads the fields of the struct through every
    method: the counter of the [sync.WaitGroup], the state channel (what was
    sent on it, and whether it is closed; its reader is taken to receive
    whatever is sent), the endpoint, and the calls made on the endpoint.  A
    method returns its result or panics, as Go does on a negative WaitGroup
    counter, on a send on or the close of a closed channel, and on a method
    call on a nil interface. *)
Module Wireguard.

(** The states this file sends ([connection.State]). *)
Inductive State : Type := NotConnected | Connecting | Connected | Disconnecting.

(** A connection endpoint, as what its methods will answer. *)
Record Endpoint : Type := mkEndpoint {
  epStart : option error;     (* Start(&config) *)
  epAddPeer : option error;   (* AddPeer(publicKey, &endpoint) *)
  epStop : option error       (* Stop() *)
}.

Inductive Call : Type := CallStart | CallAddPeer | CallStop.

Record Connection : Type := mkConnection {
  connection : Z;                       (* sync.WaitGroup counter *)
  sent : list State;                    (* sent on stateChannel, oldest first *)
  closed : bool;                        (* close(stateChannel) was done *)
  connectionEndpoint : option Endpoint; (* nil is None *)
  calls : list Call;                    (* calls made on endpoints, in order *)
  logged : list string                  (* log.Error lines *)
}.

(** A [Connection] that was never started: zero WaitGroup, open state
    channel, nil endpoint. *)
Definition fresh : Connection :=
  {| connection := 0; sent := []; closed := false;
     connectionEndpoint := None; calls := []; logged := [] |}.

Inductive Result (A : Type) : Type :=
| Done (a : A) (c : Connection)
| Panic (why : string) (c : Connection)
| Waiting (c : Connection).
Arguments Done {A} a c.
Arguments Panic {A} why c.
Arguments Waiting {A} c.

Definition M (A : Type) : Type := Connection -> Result A.

Definition ret {A : Type} (a : A) : M A := fun c => Done a c.

Definition bind {A B : Type} (m : M A) (k : A -> M B) : M B :=
  fun c =>
    match m c with
    | Done a c' => k a c'
    | Panic why c' => Panic why c'
    | Waiting c' => Waiting c'
    end.

Declare Scope conn_scope.
Notation "x <- m ;; k" := (bind m (fun x => k))
  (at level 61, m at next level, right associativity) : conn_scope.
Notation "m ;; k" := (bind m (fun _ => k))
  (at level 61, right associativity) : conn_scope.
#[local] Open Scope conn_scope.

(** [c.stateChannel <- s] *)
Definition send (s : State) : M unit :=
  fun c =>
    if closed c then Panic "send on closed channel" c
    else Done tt {| connection := connection c; sent := sent c ++ [s];
                    closed := false;
                    connectionEndpoint := connectionEndpoint c;
                    calls := calls c; logged := logged c |}.

(** [close(c.stateChannel)] *)
Definition close : M unit :=
  fun c =>
    if closed c then Panic "close of closed channel" c
    else Done tt {| connection := connection c; sent := sent c;
                    closed := true;
                    connectionEndpoint := connectionEndpoint c;
                    calls := calls c; logged := logged c |}.

(** [c.connection.Add(delta)]; [Done()] is [Add(-1)]. *)
Definition Add (delta : Z) : M unit :=
  fun c =>
    if connection c + delta <? 0
    then Panic "sync: negative WaitGroup counter" c
    else Done tt {| connection := connection c + delta; sent := sent c;
                    closed := closed c;
                    connectionEndpoint := connectionEndpoint c;
                    calls := calls c; logged := logged c |}.

Definition setEndpoint (ep : option Endpoint) : M unit :=
  fun c => Done tt {| connection := connection c; sent := sent c;
                      closed := closed c; connectionEndpoint := ep;
                      calls := calls c; logged := logged c |}.

Definition logError (msg : string) : M unit :=
  fun c => Done tt {| connection := connection c; sent := sent c;
                      closed := closed c;
                      connectionEndpoint := connectionEndpoint c;
                      calls := calls c; logged := logged c ++ [msg] |}.

(** A method call on [c.connectionEndpoint]. *)
Definition call (which : Call) (answer : Endpoint -> option error)
    : M (option error) :=
  fun c =>
    match connectionEndpoint c with
    | None => Panic "invalid memory address or nil pointer dereference" c
    | Some ep =>
        Done (answer ep)
          {| connection := connection c; sent := sent c; closed := closed c;
             connectionEndpoint := Some ep; calls := calls c ++ [which];
             logged := logged c |}
    end.

(** [Start]; [created] is what [endpoint.NewConnectionEndpoint(nil)]
    returns. *)
Definition Start (created : option Endpoint * option error)
    : M (option error) :=
  setEndpoint (fst created) ;;
  match snd created with
  | Some err => ret (Some err)
  | None =>
      Add 1 ;;
      send Connecting ;;
      err <- call CallStart epStart ;;
      match err with
      | Some err =>
          send NotConnected ;;
          Add (-1) ;;
          ret (Some err)
      | None =>
          err <- call CallAddPeer epAddPeer ;;
          match err with
          | Some err =>
              send NotConnected ;;
              Add (-1) ;;
              ret (Some err)
          | None =>
              send Connected ;;
              ret None
          end
      end
  end.

(** [Wait] *)
Definition Wait : M (option error) :=
  fun c => if connection c =? 0 then Done None c else Waiting c.

(** [Stop] *)
Definition Stop : M unit :=
  send Disconnecting ;;
  err <- call CallStop epStop ;;
  match err with
  | Some err => logError "Failed to close wireguard connection"
  | None => ret tt
  end ;;
  send NotConnected ;;
  Add (-1) ;;
  close.

(** [GenerateConnectionParams]: [generated] is the result of
    [endpoint.GeneratePrivateKey], [derive] is
    [endpoint.PrivateKeyToPublicKey]; the zero value of a key is the empty
    string.  The result is (public key, private key, error). *)
Definition GenerateConnectionParams (generated : string + error)
    (derive : string -> string + error) : string * string * option error :=
  match generated with
  | inr err => ("", "", Some err)
  | inl privateKey =>
      match derive privateKey with
      | inr err => ("", "", Some err)
      | inl publicKey => (publicKey, privateKey, None)
      end
  end.

End Wireguard.


(** ** Theorems: runs *)

Lemma bind_emit {B : Type} (e : Effect) (k : unit -> Run B) :
  bind (emit e) k = prepend [e] (k tt).
Proof. unfold bind, emit, prepend. now destruct (k tt). Qed.

Lemma bind_ret {A B : Type} (a : A) (k : A -> Run B) : bind (ret a) k = k a.
Proof. unfold bind, ret. cbn. destruct (k a); reflexivity. Qed.

Lemma prepend_prepend {A : Type} (t u : list Effect) (r : Run A) :
  prepend t (prepend u r) = prepend (t ++ u) r.
Proof. unfold prepend. cbn. now rewrite app_assoc. Qed.

(** ** Theorems: the sender *)

Lemma clamp_counterAt (k : nat) :
  (if 4 <? counterAt k then 128 else counterAt k) = ttlAt k.
Proof.
  unfold counterAt, ttlAt.
  destruct (Nat.leb_spec k 4) as [Hle | Hgt];
    destruct (Nat.ltb_spec k 4) as [Hlt | Hge]; try lia.
  - destruct (Z.ltb_spec 4 (Z.of_nat k + 1)); lia.
  - destruct (Z.ltb_spec 4 (Z.of_nat k + 1)); lia.
  - reflexivity.
Qed.

Lemma next_counterAt (k : nat) : ttlAt k + 1 = counterAt (S k).
Proof.
  unfold counterAt, ttlAt.
  destruct (Nat.leb_spec (S k) 4); destruct (Nat.ltb_spec k 4); lia.
Qed.

Lemma pingLoop_timeline (conn : Conn) (sched : list SenderInput) :
  forall (k : nat) (now : Z),
    ttlTimeline now (fst (pingLoop conn (counterAt k) sched))
    = map (fun i => (now + pingInterval * (Z.of_nat i + 1), ttlAt (k + i)))
          (seq 0 (ttlCalls sched)).
Proof.
  induction sched as [| [| io] rest IH]; intros k now; try reflexivity.
  cbn [pingLoop ttlCalls].
  rewrite clamp_counterAt, next_counterAt, !bind_emit.
  assert (Hnow : now + pingInterval + 0 = now + pingInterval * (0 + 1))
    by (unfold pingInterval; lia).
  destruct (ttlErr io) as [e |]; [| destruct (writeErr io) as [e |]].
  - cbn. now rewrite Nat.add_0_r, Hnow.
  - cbn. now rewrite Nat.add_0_r, Hnow.
  - cbn [prepend fst app ttlTimeline duration seq map Z.of_nat].
    rewrite Nat.add_0_r, Hnow. f_equal.
    replace (now + pingInterval * (0 + 1) + 0) with (now + pingInterval)
      by (unfold pingInterval; lia).
    rewrite (IH (S k) (now + pingInterval)).
    rewrite <- seq_shift, map_map.
    apply map_ext. intros i. f_equal.
    + unfold pingInterval. lia.
    + f_equal. lia.
Qed.

Lemma ttlAt_mono (i j : nat) : (i <= j)%nat -> ttlAt i <= ttlAt j.
Proof.
  intros Hij. unfold ttlAt.
  destruct (Nat.ltb_spec i 4); destruct (Nat.ltb_spec j 4); lia.
Qed.

Lemma ttlAt_bounds (k : nat) : 1 <= ttlAt k <= 128.
Proof.
  unfold ttlAt. destruct (Nat.ltb_spec k 4); lia.
Qed.

(** C1. Whatever the socket and the scheduler do, the TTL values the sender
    sets are, in order, 1, 2, 3, 4, 128, 128, ... ([ttlAt]), the [i]-th of
    them (from 0) being set [200 * (i + 1)] ms after [ping] was entered, one
    per tick, for as many ticks as the sender gets to run; this sequence
    never decreases and never exceeds 128. *)
Theorem ping_ttl_sequence (conn : Conn) (sched : list SenderInput) :
  ttlTimeline 0 (fst (ping conn sched))
  = map (fun i => (pingInterval * (Z.of_nat i + 1), ttlAt i))
        (seq 0 (ttlCalls sched))
  /\ map ttlAt (seq 0 7) = [1; 2; 3; 4; 128; 128; 128]
  /\ (forall i : nat, (4 <= i)%nat -> ttlAt i = 128)
  /\ (forall i j : nat, (i <= j)%nat -> ttlAt i <= ttlAt j)
  /\ (forall i : nat, 1 <= ttlAt i <= 128).
Proof.
  split; [| split; [| split; [| split]]].
  - unfold ping. change 1 with (counterAt 0).
    rewrite pingLoop_timeline. apply map_ext. intros i. reflexivity.
  - reflexivity.
  - intros i Hi. unfold ttlAt. destruct (Nat.ltb_spec i 4); lia.
  - apply ttlAt_mono.
  - apply ttlAt_bounds.
Qed.

Lemma ping_ttl_sequence_witness :
  ttlTimeline 0
    (fst (ping 0%nat (repeat (Tick okTick) 6 ++ [Cancel])))
  = [(200, 1); (400, 2); (600, 3); (800, 4); (1000, 128); (1200, 128)].
Proof.
  exact (proj1 (ping_ttl_sequence 0%nat (repeat (Tick okTick) 6 ++ [Cancel]))).
Defined.

(** ** Theorems: the receiver *)

Lemma span_nonneg (errs : list ReadCall) :
  Forall (fun r => 0 <= took r) errs -> 0 <= span errs.
Proof.
  induction 1 as [| r rest Hr _ IH]; cbn [span]; unfold pingInterval in *; lia.
Qed.

Lemma receiveLoop_skips_failed_reads (conn : Conn) (listening : bool)
    (errs : list ReadCall) :
  forall (since : Z) (rest : list ReadCall),
    Forall (fun r => failedRead r = true) errs ->
    Forall (fun r => 0 <= took r) errs ->
    since + span errs < pingTimeout ->
    receiveLoop conn listening since (errs ++ rest)
    = prepend (errTrace conn errs)
        (receiveLoop conn listening (since + span errs) rest).
Proof.
  induction errs as [| r errs IH]; intros since rest Hf Hn Hlt.
  - cbn [span app errTrace]. rewrite Z.add_0_r. unfold prepend.
    now destruct (receiveLoop conn listening since rest).
  - inversion Hf as [| ? ? Hr Hf']; subst.
    inversion Hn as [| ? ? Hr0 Hn']; subst.
    pose proof (span_nonneg errs Hn') as Hs.
    cbn [span] in Hlt |- *.
    cbn [app receiveLoop].
    destruct (Z.leb_spec pingTimeout since) as [Hle | _];
      [unfold pingInterval in *; lia |].
    unfold failedRead in Hr. destruct (result r) as [n | e] eqn:Er;
      [discriminate |].
    rewrite !bind_emit, IH; try assumption; [| lia].
    rewrite !prepend_prepend. cbn [errTrace app]. rewrite Er.
    replace (since + took r + pingInterval + span errs)
      with (since + (took r + pingInterval + span errs)) by lia.
    reflexivity.
Qed.


Lemma receiveLoop_deadline (conn : Conn) (since : Z) (rest : list ReadCall) :
  pingTimeout <= since ->
  receiveLoop conn true since rest
  = ([Send_pingCancelled], Returned (Some "NAT punch attempt timed out")).
Proof.
  intros Hle. destruct rest; cbn [receiveLoop];
    destruct (Z.leb_spec pingTimeout since); try lia; reflexivity.
Qed.
Lemma filter_length_app {A : Type} (f : A -> bool) (a b : list A) :
  List.length (filter f (a ++ b))
  = (List.length (filter f a) + List.length (filter f b))%nat.
Proof. now rewrite filter_app, length_app. Qed.

Lemma elapsed_app (a b : list Effect) :
  elapsed (a ++ b) = elapsed a + elapsed b.
Proof. induction a as [| e a IH]; cbn [app elapsed]; lia. Qed.

Lemma errTrace_elapsed (conn : Conn) (errs : list ReadCall) :
  elapsed (errTrace conn errs) = span errs.
Proof.
  induction errs as [| r errs IH]; cbn [errTrace elapsed span duration];
    [reflexivity | lia].
Qed.

Lemma errTrace_cancellations (conn : Conn) (errs : list ReadCall) :
  cancellations (errTrace conn errs) = 0%nat.
Proof.
  unfold cancellations. induction errs as [| r errs IH]; [reflexivity |].
  cbn [errTrace filter]. exact IH.
Qed.

Lemma errTrace_datagrams (conn : Conn) (errs : list ReadCall) :
  Forall (fun r => failedRead r = true) errs ->
  datagrams (errTrace conn errs) = 0%nat.
Proof.
  unfold datagrams. induction 1 as [| r errs Hr _ IH]; [reflexivity |].
  cbn [errTrace filter]. unfold failedRead in Hr.
  destruct (result r); [discriminate | exact IH].
Qed.


Lemma span_app (a b : list ReadCall) : span (a ++ b) = span a + span b.
Proof. induction a as [| r a IH]; cbn [app span]; lia. Qed.

Lemma errTrace_app (conn : Conn) (a b : list ReadCall) :
  errTrace conn (a ++ b) = errTrace conn a ++ errTrace conn b.
Proof.
  induction a as [| r a IH]; cbn [app errTrace]; [reflexivity |].
  now rewrite IH.
Qed.

Lemma receiveLoop_failed_read (conn : Conn) (listening : bool) (since : Z)
    (r : ReadCall) (rest : list ReadCall) :
  since < pingTimeout ->
  failedRead r = true ->
  receiveLoop conn listening since (r :: rest)
  = prepend (errTrace conn [r])
      (receiveLoop conn listening (since + took r + pingInterval) rest).
Proof.
  intros Hlt Hr. cbn [receiveLoop].
  destruct (Z.leb_spec pingTimeout since) as [Hle | _]; [lia |].
  unfold failedRead in Hr.
  destruct (result r) as [n | e] eqn:Er; [discriminate |].
  rewrite !bind_emit, !prepend_prepend. cbn [errTrace app]. now rewrite Er.
Qed.

(** What the deadline does achieve: once failed reads have carried the loop
    past it, the next poll cancels the sender once and reports the timeout. *)
Lemma pingReceiver_timeout_after_failed_reads (conn : Conn)
    (front : list ReadCall) (r : ReadCall) (rest : list ReadCall) :
  Forall (fun r => failedRead r = true) (front ++ [r]) ->
  Forall (fun r => 0 <= took r) (front ++ [r]) ->
  span front < pingTimeout ->
  pingTimeout <= span (front ++ [r]) ->
  pingReceiver conn true ((front ++ [r]) ++ rest)
  = (errTrace conn (front ++ [r]) ++ [Send_pingCancelled],
     Returned (Some "NAT punch attempt timed out")).
Proof.
  intros Hf Hn Hlt Hge. unfold pingReceiver.
  apply Forall_app in Hf as [Hf1 Hf2]. apply Forall_app in Hn as [Hn1 Hn2].
  rewrite span_app in Hge. cbn [span] in Hge.
  rewrite <- app_assoc.
  rewrite receiveLoop_skips_failed_reads by (assumption || lia).
  inversion Hf2 as [| ? ? Hr _]; subst.
  change ([r] ++ rest) with (r :: rest).
  rewrite receiveLoop_failed_read by (assumption || lia).
  rewrite receiveLoop_deadline by lia.
  rewrite prepend_prepend, errTrace_app. reflexivity.
Qed.





(** C2 (the code at a failing input). [Read] is called with no deadline, and
    the timer is polled only between reads.  So a first read that delivers a
    datagram ends the race with success however long it stayed blocked: a
    read that stays blocked for 15,000 ms and then delivers one byte makes the
    receiver return success, 15,400 ms after entry, although no datagram came
    within 10,000 ms; and on a socket that never delivers anything the
    receiver stays in [Read]: it sends no cancellation and returns no timeout
    error. *)
Theorem pingReceiver_blocked_read_outlasts_deadline :
  pingTimeout < 15000
  /\ pingReceiver 0%nat true [mkRead 15000 (ReadOk 1)]
     = ([Read 0%nat 15000 (ReadOk 1); Println 1; After 400;
         Send_pingCancelled], Returned None)
  /\ elapsed (fst (pingReceiver 0%nat true [mkRead 15000 (ReadOk 1)])) = 15400
  /\ pingReceiver 0%nat true [] = ([], Blocked InRead)
  /\ (forall (conn : Conn) (d n : Z) (rest : list ReadCall),
        snd (pingReceiver conn true (mkRead d (ReadOk n) :: rest))
        = Returned None).
Proof.
  repeat split.
Qed.

(** The race ends in one of three ways only: success, the timeout error, or
    blocked for ever (in [Read], or on the cancellation when the sender has
    gone). *)
Lemma receiveLoop_outcomes (conn : Conn) (listening : bool)
    (reads : list ReadCall) :
  forall since : Z,
    let o := snd (receiveLoop conn listening since reads) in
    o = Returned None
    \/ o = Returned (Some "NAT punch attempt timed out")
    \/ o = Blocked InRead
    \/ o = Blocked OnCancelSend.
Proof.
  induction reads as [| r reads IH]; intros since; cbn zeta;
    cbn [receiveLoop]; destruct (pingTimeout <=? since);
    try (destruct listening; cbn; tauto).
  rewrite bind_emit. cbn [prepend snd].
  destruct (result r) as [n | e].
  - destruct listening; cbn; tauto.
  - rewrite !bind_emit. cbn [prepend snd]. apply IH.
Qed.

(** ** Theorems: the dispatch loop *)

Lemma receiveLoop_effects (conn : Conn) (listening : bool)
    (reads : list ReadCall) :
  forall since : Z,
    Forall (fun e => receiverEffect e = true)
      (fst (receiveLoop conn listening since reads)).
Proof.
  induction reads as [| r reads IH]; intros since; cbn [receiveLoop];
    destruct (pingTimeout <=? since);
    try solve [destruct listening; cbn; repeat constructor].
  rewrite bind_emit. cbn [prepend fst app]. constructor; [reflexivity |].
  destruct (result r) as [n | e].
  - destruct listening; cbn; repeat constructor.
  - rewrite !bind_emit. cbn [prepend fst app]. repeat constructor. apply IH.
Qed.

Lemma filter_none {A : Type} (f g : A -> bool) (t : list A) :
  (forall x, g x = true -> f x = false) ->
  Forall (fun x => g x = true) t ->
  List.length (filter f t) = 0%nat.
Proof.
  intros Hfg. induction 1 as [| x t Hx _ IH]; [reflexivity |].
  cbn [filter]. now rewrite (Hfg x Hx).
Qed.

Lemma receiveLoop_serial (conn : Conn) (listening : bool)
    (reads : list ReadCall) :
  forall since : Z,
    let r := receiveLoop conn listening since reads in
    serialFrom 1 (fst r)
    /\ (forall o, snd r = Returned o -> inFlight (fst r) = -1)
    /\ dequeued (fst r) = [].
Proof.
  induction reads as [| r reads IH]; intros since; cbn zeta;
    cbn [receiveLoop]; destruct (pingTimeout <=? since);
    try solve [destruct listening; cbn; repeat split; try lia; discriminate].
  rewrite bind_emit.
  destruct (result r) as [n | e].
  - destruct listening; cbn; repeat split; try lia; discriminate.
  - rewrite !bind_emit, !prepend_prepend.
    destruct (IH (since + took r + pingInterval)) as [Hs [Hr Hd]].
    cbn [prepend fst snd app serialFrom inFlight delta dequeued isDequeue].
    repeat split; try lia; try discriminate; assumption.
Qed.

Lemma inFlight_app (a b : list Effect) :
  inFlight (a ++ b) = inFlight a + inFlight b.
Proof. induction a as [| e a IH]; cbn [app inFlight]; lia. Qed.

Lemma dequeued_app (a b : list Effect) :
  dequeued (a ++ b) = dequeued a ++ dequeued b.
Proof.
  induction a as [| e a IH]; [reflexivity |].
  destruct e; cbn [app dequeued]; now rewrite ?IH.
Qed.

Lemma serialFrom_app (a b : list Effect) :
  forall d : Z,
    serialFrom d a -> serialFrom (d + inFlight a) b -> serialFrom d (a ++ b).
Proof.
  induction a as [| e a IH]; intros d Ha Hb; cbn [app inFlight] in *.
  - now rewrite Z.add_0_r in Hb.
  - cbn [serialFrom] in *. destruct Ha as [H0 [H1 Ha]].
    repeat split; try tauto. apply IH; [assumption |].
    now rewrite <- Z.add_assoc.
Qed.

Lemma serialFrom_prefix (pre post : list Effect) :
  forall d : Z,
    0 <= d <= 1 ->
    serialFrom d (pre ++ post) ->
    0 <= d + inFlight pre <= 1
    /\ (forall pp post', post = Recv_pingTarget pp :: post' ->
                         d + inFlight pre = 0).
Proof.
  induction pre as [| e pre IH]; intros d Hd Hs; cbn [app inFlight] in *.
  - split; [lia |]. intros pp post' ->. cbn [serialFrom isDequeue] in Hs.
    destruct Hs as [H0 _]. rewrite (H0 eq_refl). reflexivity.
  - cbn [serialFrom] in Hs. destruct Hs as [_ [H1 Hs]].
    destruct (IH (d + delta e) H1 Hs) as [Hb Hq].
    rewrite Z.add_assoc. split; [exact Hb | exact Hq].
Qed.

Lemma bind_prepend {A B : Type} (t : list Effect) (m : Run A)
    (k : A -> Run B) :
  bind (prepend t m) k = prepend t (bind m k).
Proof.
  unfold bind, prepend. destruct m as [u [a | b]]; cbn [fst snd].
  - destruct (k a). cbn [fst snd]. now rewrite app_assoc.
  - reflexivity.
Qed.

Create Rewrite HintDb run.
#[local] Hint Rewrite @bind_emit @bind_ret @bind_prepend @prepend_prepend
  : run.

(** The iteration for a request whose proxy is available, whose decoded port
    is not zero and whose socket can be dialled: socket, sender, race, and
    then the handoff or nothing. *)
Lemma punch_dialled (p : Pinger) (fresh : Conn) (pp : Params) (env : NetEnv)
    (IP : string) (port : Z) (st : ServiceType) :
  isAvailable (natProxy p) st = true ->
  port <> 0 ->
  resolveErr env = None ->
  dialErr env = None ->
  punch p fresh pp env IP port st
  = prepend [Log Info "ping target received"; Resolved IP port None;
             Log Info "remote socket: ";
             Dialed (Port pp) IP port (inl fresh);
             Log Info "local socket: "; Go_ping fresh]
      (match pingReceiver fresh (senderListening fresh (ticks env))
               (reads env) with
       | (t, Returned None) =>
           (t ++ [Log Info "ping received, waiting for a new connection";
                  Go_handOff st fresh], Returned tt)
       | (t, Returned (Some _)) =>
           (t ++ [Log Error "ping receiver error: "], Returned tt)
       | (t, Blocked b) => (t, Blocked b)
       end).
Proof.
  intros Ha Hp Hr Hd. unfold punch, getConnection.
  rewrite Ha, Hr, Hd. apply Z.eqb_neq in Hp. rewrite Hp. cbn [negb].
  autorewrite with run. cbn [app]. f_equal.
  destruct (pingReceiver fresh (senderListening fresh (ticks env))
              (reads env)) as [t [[e |] | b]]; reflexivity.
Qed.

(** In every other case no socket is opened and the iteration ends at once,
    having launched and dequeued nothing. *)
Lemma punch_skipped (p : Pinger) (fresh : Conn) (pp : Params) (env : NetEnv)
    (IP : string) (port : Z) (st : ServiceType) :
  isAvailable (natProxy p) st = false \/ port = 0
  \/ resolveErr env <> None \/ dialErr env <> None ->
  exists t,
    punch p fresh pp env IP port st = (t, Returned tt)
    /\ Forall (fun e => delta e = 0 /\ isDequeue e = false) t
    /\ (forall lp, In lp (localPorts t) -> lp = Port pp).
Proof.
  intros H. unfold punch, getConnection.
  destruct (isAvailable (natProxy p) st); cbn [negb];
    [| eexists; split; [reflexivity |]; split;
       [repeat constructor | intros lp []]].
  destruct (Z.eqb_spec port 0) as [-> | Hp];
    [eexists; split; [reflexivity |]; split;
       [repeat constructor | intros lp []] |].
  destruct (resolveErr env) as [e |];
    [eexists; split; [reflexivity |]; split;
       [repeat constructor | intros lp []] |].
  destruct (dialErr env) as [e |].
  - eexists; split; [reflexivity |]; split; [repeat constructor |].
    intros lp [<- | []]. reflexivity.
  - exfalso. destruct H as [H | [H | [H | H]]]; congruence.
Qed.

Lemma serve_run (p : Pinger) (fresh : Conn) (a : Arrival) :
  let r := Parse (configParser p) (RequestConfig (request a)) in
  serve p fresh a
  = prepend (decodeTrace (request a) r)
      (punch p fresh (request a) (net a) (pIP r) (pPort r) (pServiceType r)).
Proof.
  cbn zeta. unfold serve, decodeTrace.
  destruct (pErr (Parse (configParser p) (RequestConfig (request a))));
    autorewrite with run; reflexivity.
Qed.

Lemma quiet_trace (t : list Effect) :
  Forall (fun e => delta e = 0 /\ isDequeue e = false) t ->
  forall d : Z,
    0 <= d <= 1 ->
    serialFrom d t /\ inFlight t = 0 /\ dequeued t = [].
Proof.
  induction 1 as [| e t [He Hq] _ IH]; intros d Hd; [now cbn |].
  destruct (IH d Hd) as [Hs [Hi Hdq]].
  cbn [serialFrom inFlight]. rewrite He, Hi, Z.add_0_r.
  repeat split; try lia; try assumption.
  - rewrite Hq. discriminate.
  - destruct e; try discriminate; exact Hdq.
Qed.

Lemma serve_serial (p : Pinger) (fresh : Conn) (a : Arrival) :
  let r := serve p fresh a in
  serialFrom 0 (fst r)
  /\ (forall u, snd r = Returned u -> inFlight (fst r) = 0)
  /\ dequeued (fst r) = [request a].
Proof.
  cbn zeta. rewrite serve_run.
  set (r := Parse (configParser p) (RequestConfig (request a))).
  assert (Hdec : serialFrom 0 (decodeTrace (request a) r)
                 /\ inFlight (decodeTrace (request a) r) = 0
                 /\ dequeued (decodeTrace (request a) r) = [request a]).
  { unfold decodeTrace. destruct (pErr r); cbn; repeat split; lia. }
  destruct Hdec as [Hs0 [Hi0 Hd0]].
  cbn [prepend fst snd]. rewrite inFlight_app, dequeued_app, Hi0, Hd0.
  destruct (isAvailable (natProxy p) (pServiceType r)) eqn:Ha;
    [destruct (Z.eq_dec (pPort r) 0) as [Hp | Hp];
     [| destruct (resolveErr (net a)) eqn:Hr;
        [| destruct (dialErr (net a)) eqn:Hd]] |].
  4: {
    rewrite (punch_dialled p fresh (request a) (net a) _ _ _ Ha Hp Hr Hd).
    destruct (receiveLoop_serial fresh
                (senderListening fresh (ticks (net a))) (reads (net a)) 0)
      as [Hs [Hret Hdq]].
    cbn zeta in Hs, Hret, Hdq.
    fold (pingReceiver fresh (senderListening fresh (ticks (net a)))
            (reads (net a))) in Hs, Hret, Hdq.
    destruct (pingReceiver fresh (senderListening fresh (ticks (net a)))
                (reads (net a))) as [t [[e |] | b]];
      cbn [fst snd] in Hs, Hret, Hdq; cbn [prepend fst snd app].
    - specialize (Hret _ eq_refl). split; [| split].
      + apply serialFrom_app; [assumption |]. rewrite Hi0.
        cbn [serialFrom inFlight delta isDequeue app].
        repeat (split; [discriminate || lia |]).
        apply serialFrom_app; [assumption |]. rewrite Hret. cbn.
        repeat split; try lia; discriminate.
      + intros _ _. cbn [inFlight delta app]. rewrite inFlight_app, Hret.
        cbn. lia.
      + cbn [dequeued app]. rewrite dequeued_app, Hdq. reflexivity.
    - specialize (Hret _ eq_refl). split; [| split].
      + apply serialFrom_app; [assumption |]. rewrite Hi0.
        cbn [serialFrom inFlight delta isDequeue app].
        repeat (split; [discriminate || lia |]).
        apply serialFrom_app; [assumption |]. rewrite Hret. cbn.
        repeat split; try lia; discriminate.
      + intros _ _. cbn [inFlight delta app]. rewrite inFlight_app, Hret.
        cbn. lia.
      + cbn [dequeued app]. rewrite dequeued_app, Hdq. reflexivity.
    - split; [| split].
      + apply serialFrom_app; [assumption |]. rewrite Hi0.
        cbn [serialFrom inFlight delta isDequeue app].
        repeat (split; [discriminate || lia |]). exact Hs.
      + discriminate.
      + cbn [dequeued app]. now rewrite Hdq. }
  all: destruct (punch_skipped p fresh (request a) (net a) (pIP r) (pPort r)
                   (pServiceType r)) as [t [E [Hq _]]];
    [first [now left | now (right; left)
           | right; right; left; congruence
           | right; right; right; congruence] |].
  all: rewrite E; cbn [fst snd].
  all: destruct (quiet_trace t Hq 0 ltac:(lia)) as [Hs [Hi Hdq]].
  all: rewrite Hi, Hdq; split; [| split; reflexivity].
  all: apply serialFrom_app; [assumption | now rewrite Hi0].
Qed.

Lemma dispatchLoop_serial (p : Pinger) (queue : list Arrival) :
  forall fresh : Conn,
    serialFrom 0 (fst (dispatchLoop p fresh queue))
    /\ exists k : nat,
         dequeued (fst (dispatchLoop p fresh queue))
         = map request (firstn k queue).
Proof.
  induction queue as [| a queue IH]; intros fresh; cbn [dispatchLoop].
  - split; [exact I | exists 0%nat; reflexivity].
  - destruct (serve_serial p fresh a) as [Hs [Hi Hd]]. cbn zeta in Hs, Hi, Hd.
    destruct (IH (S fresh)) as [Hs' [k Hk]].
    unfold bind.
    destruct (serve p fresh a) as [t [[] | b]]; cbn [fst snd] in *.
    + destruct (dispatchLoop p (S fresh) queue) as [t' o]. cbn [fst] in *.
      split.
      * apply serialFrom_app; [assumption |]. now rewrite (Hi tt eq_refl).
      * exists (S k). rewrite dequeued_app, Hd, Hk. reflexivity.
    + split; [assumption |]. exists 1%nat. rewrite Hd.
      reflexivity.
Qed.

(** The loop never returns: it waits for the next request, or hangs inside an
    attempt. *)
Lemma dispatchLoop_never_returns (p : Pinger) (queue : list Arrival) :
  forall fresh : Conn,
    exists b : BlockPoint, snd (dispatchLoop p fresh queue) = Blocked b.
Proof.
  induction queue as [| a queue IH]; intros fresh; cbn [dispatchLoop].
  - now exists OnQueue.
  - unfold bind. destruct (serve p fresh a) as [t [[] | b]].
    + destruct (IH (S fresh)) as [b Hb].
      destruct (dispatchLoop p (S fresh) queue) as [t' o]. now exists b.
    + now exists b.
Qed.

(** C6. At every point of a run of [Start] at most one attempt is in flight
    (its sender launched and its race not yet ended by the cancellation that
    precedes the return of [pingReceiver], with success or timeout), and a
    request is taken off the queue only when no attempt is in flight; the
    requests are taken in the order they were put on the queue. *)
Theorem Start_serializes (SuccessEventType : string) (p : Pinger)
    (queue : list Arrival) (pre post : list Effect) :
  fst (Start SuccessEventType p queue) = pre ++ post ->
  0 <= inFlight pre <= 1
  /\ (forall pp post', post = Recv_pingTarget pp :: post' -> inFlight pre = 0)
  /\ exists k : nat,
       dequeued (fst (Start SuccessEventType p queue))
       = map request (firstn k queue).
Proof.
  intros E.
  assert (Hs : serialFrom 0 (fst (Start SuccessEventType p queue))
               /\ exists k : nat,
                    dequeued (fst (Start SuccessEventType p queue))
                    = map request (firstn k queue)).
  { unfold Start. rewrite !bind_emit.
    destruct (Type_ (WaitForEvent (natEventWaiter p)) =? SuccessEventType)%string.
    - cbn. split; [repeat split; try lia; discriminate |].
      exists 0%nat. reflexivity.
    - destruct (dispatchLoop_serial p queue 0%nat) as [H [k Hk]].
      cbn [prepend fst app serialFrom delta isDequeue dequeued].
      split; [repeat (split; [discriminate || lia |]); exact H |].
      exists k. exact Hk. }
  destruct Hs as [Hs Hk]. rewrite E in Hs.
  destruct (serialFrom_prefix pre post 0 ltac:(lia) Hs) as [Hb Hq].
  cbn [Z.add] in Hb, Hq. repeat split; try tauto.
Qed.

Lemma Start_serializes_witness :
  let t := fst (Start "success" samplePinger
                  [mkArrival sampleRequest answering;
                   mkArrival sampleRequest refusing]) in
  0 <= inFlight (firstn 16 t) <= 1 /\ inFlight (firstn 16 t) = 0.
Proof.
  cbv zeta.
  pose proof (Start_serializes "success" samplePinger
                [mkArrival sampleRequest answering;
                 mkArrival sampleRequest refusing]
                (firstn 16 (fst (Start "success" samplePinger
                                   [mkArrival sampleRequest answering;
                                    mkArrival sampleRequest refusing])))
                (skipn 16 (fst (Start "success" samplePinger
                                  [mkArrival sampleRequest answering;
                                   mkArrival sampleRequest refusing])))
                (eq_sym (firstn_skipn 16 _))) as [Hb [Hq _]].
  split; [exact Hb |].
  eapply Hq. vm_compute. reflexivity.
Defined.

Lemma receiver_trace_counts (t : list Effect) :
  Forall (fun e => receiverEffect e = true) t ->
  sockets_opened t = 0%nat
  /\ (forall c, handoffs_of c t = 0%nat)
  /\ (forall c, closes_of c t = 0%nat)
  /\ localPorts t = [].
Proof.
  intros H. repeat split; try intros c.
  - eapply filter_none; [| exact H]. intros []; cbn; congruence.
  - eapply filter_none; [| exact H]. intros []; cbn; congruence.
  - eapply filter_none; [| exact H]. intros []; cbn; congruence.
  - induction H as [| e t He _ IH]; [reflexivity |].
    destruct e; try discriminate; exact IH.
Qed.

Lemma pingReceiver_counts (conn : Conn) (listening : bool)
    (reads : list ReadCall) :
  let t := fst (pingReceiver conn listening reads) in
  sockets_opened t = 0%nat
  /\ (forall c, handoffs_of c t = 0%nat)
  /\ (forall c, closes_of c t = 0%nat)
  /\ localPorts t = [].
Proof. apply receiver_trace_counts, receiveLoop_effects. Qed.

Lemma decodeTrace_counts (pp : Params) (r : Parsed) :
  sockets_opened (decodeTrace pp r) = 0%nat
  /\ (forall c, handoffs_of c (decodeTrace pp r) = 0%nat)
  /\ (forall c, closes_of c (decodeTrace pp r) = 0%nat)
  /\ localPorts (decodeTrace pp r) = [].
Proof. unfold decodeTrace. destruct (pErr r); repeat split. Qed.

Lemma localPorts_app (a b : list Effect) :
  localPorts (a ++ b) = localPorts a ++ localPorts b.
Proof.
  induction a as [| e a IH]; [reflexivity |].
  destruct e; cbn [app localPorts]; now rewrite ?IH.
Qed.

Lemma sockets_opened_app (a b : list Effect) :
  sockets_opened (a ++ b) = (sockets_opened a + sockets_opened b)%nat.
Proof. apply filter_length_app. Qed.

Lemma handoffs_of_app (c : Conn) (a b : list Effect) :
  handoffs_of c (a ++ b) = (handoffs_of c a + handoffs_of c b)%nat.
Proof. apply filter_length_app. Qed.

Lemma closes_of_app (c : Conn) (a b : list Effect) :
  closes_of c (a ++ b) = (closes_of c a + closes_of c b)%nat.
Proof. apply filter_length_app. Qed.

(** C3 (what the code does). For a request with an available proxy, a
    nonzero decoded port and a socket that can be dialled, one iteration of
    the loop opens exactly one socket and never closes it; it hands the
    socket off exactly once when the race returns success and not at all
    otherwise.  So when the race ends with the timeout error the socket is
    neither handed off nor closed. *)
Theorem serve_socket_fate (p : Pinger) (fresh : Conn) (a : Arrival) :
  let r := Parse (configParser p) (RequestConfig (request a)) in
  isAvailable (natProxy p) (pServiceType r) = true ->
  pPort r <> 0 ->
  resolveErr (net a) = None ->
  dialErr (net a) = None ->
  let t := fst (serve p fresh a) in
  sockets_opened t = 1%nat
  /\ closes_of fresh t = 0%nat
  /\ handoffs_of fresh t
     = match snd (pingReceiver fresh (senderListening fresh (ticks (net a)))
                    (reads (net a))) with
       | Returned None => 1%nat
       | _ => 0%nat
       end.
Proof.
  cbn zeta. intros Ha Hp Hr Hd.
  rewrite serve_run, (punch_dialled _ _ _ _ _ _ _ Ha Hp Hr Hd).
  destruct (decodeTrace_counts (request a)
              (Parse (configParser p) (RequestConfig (request a))))
    as [Ds [Dh [Dc _]]].
  destruct (pingReceiver_counts fresh (senderListening fresh (ticks (net a)))
              (reads (net a))) as [Rs [Rh [Rc _]]].
  cbn zeta in Rs, Rh, Rc.
  destruct (pingReceiver fresh (senderListening fresh (ticks (net a)))
              (reads (net a))) as [t [[e |] | b]];
    cbn [fst snd prepend] in *;
    rewrite ?sockets_opened_app, ?handoffs_of_app, ?closes_of_app,
      Ds, Dh, Dc, ?Rs, ?Rh, ?Rc;
    cbn; rewrite ?Nat.eqb_refl; repeat split.
Qed.

Lemma serve_socket_fate_witness :
  let t := fst (serve samplePinger 0%nat (mkArrival sampleRequest refusing)) in
  snd (pingReceiver 0%nat (senderListening 0%nat (ticks refusing))
         (reads refusing))
  = Returned (Some "NAT punch attempt timed out")
  /\ sockets_opened t = 1%nat
  /\ closes_of 0%nat t = 0%nat
  /\ handoffs_of 0%nat t = 0%nat.
Proof.
  cbv zeta.
  pose proof (serve_socket_fate samplePinger 0%nat
                (mkArrival sampleRequest refusing)
                eq_refl ltac:(discriminate) eq_refl eq_refl) as H.
  cbv zeta in H. destruct H as [Ho [Hc Hh]].
  split; [vm_compute; reflexivity |].
  split; [exact Ho |]. split; [exact Hc | exact Hh].
Defined.

(** C4. When the parser reports a decode error, the iteration logs one
    warning and otherwise runs exactly as it would had the parser returned the
    same IP, port and service type with no error: same effects around the
    warning, same end.  In particular the socket is still dialled towards the
    decoded address when the proxy is available and the port is not zero. *)
Theorem serve_decode_failure_falls_through (p : Pinger) (fresh : Conn)
    (a : Arrival) (e : error) :
  let r := Parse (configParser p) (RequestConfig (request a)) in
  pErr r = Some e ->
  let clean := serve (withParser p (withoutErr (configParser p))) fresh a in
  serve p fresh a
  = (firstn 2 (fst clean)
       ++ Log Warn ("unable to parse ping message: " ++ e)%string
       :: skipn 2 (fst clean),
     snd clean)
  /\ firstn 2 (fst clean)
     = [Recv_pingTarget (request a); Log Info "Pinging peer with"]
  /\ (isAvailable (natProxy p) (pServiceType r) = true ->
      pPort r <> 0 ->
      In (Resolved (pIP r) (pPort r) (resolveErr (net a)))
         (fst (serve p fresh a))).
Proof.
  cbn zeta. intros He.
  rewrite (serve_run (withParser p (withoutErr (configParser p)))).
  rewrite serve_run. cbn zeta. unfold decodeTrace. rewrite He.
  cbn [withParser withoutErr configParser Parse pErr pIP pPort pServiceType].
  change (punch (withParser p (withoutErr (configParser p))))
    with (punch p).
  set (r := Parse (configParser p) (RequestConfig (request a))).
  split; [| split].
  - reflexivity.
  - reflexivity.
  - intros Ha Hp. unfold punch, getConnection. rewrite Ha.
    apply Z.eqb_neq in Hp. rewrite Hp. cbn [negb].
    autorewrite with run. cbn. tauto.
Qed.

Lemma serve_decode_failure_falls_through_witness :
  let p := withParser samplePinger
             (mkParser (fun _ => mkParsed "" 51000 "" (Some "bad json"))) in
  In (Resolved "" 51000 None)
     (fst (serve p 0%nat (mkArrival sampleRequest answering))).
Proof.
  cbv zeta.
  refine (proj2 (proj2 (serve_decode_failure_falls_through
                          (withParser samplePinger
                             (mkParser (fun _ =>
                                mkParsed "" 51000 "" (Some "bad json"))))
                          0%nat (mkArrival sampleRequest answering)
                          "bad json" eq_refl)) eq_refl _).
  discriminate.
Defined.

(** C7. When the event waiter delivers the success event, [Start] logs,
    waits for that event and returns: it takes no request off the queue,
    whatever the queue holds. *)
Theorem Start_success_returns (SuccessEventType : string) (p : Pinger)
    (queue : list Arrival) :
  Type_ (WaitForEvent (natEventWaiter p)) = SuccessEventType ->
  Start SuccessEventType p queue
  = ([Log Info "Starting a NAT pinger";
      Waited (WaitForEvent (natEventWaiter p))], Returned tt)
  /\ dequeued (fst (Start SuccessEventType p queue)) = [].
Proof.
  intros E. unfold Start. rewrite E, String.eqb_refl. split; reflexivity.
Qed.

Lemma Start_success_returns_witness :
  Start "success"
    (NewPingerFactory (mkWaiter (mkEvent "success"))
       (configParser samplePinger) (natProxy samplePinger)
       (portPool samplePinger))
    [mkArrival sampleRequest answering]
  = ([Log Info "Starting a NAT pinger"; Waited (mkEvent "success")],
     Returned tt).
Proof.
  exact (proj1 (Start_success_returns "success"
                  (NewPingerFactory (mkWaiter (mkEvent "success"))
                     (configParser samplePinger) (natProxy samplePinger)
                     (portPool samplePinger))
                  [mkArrival sampleRequest answering] eq_refl)).
Defined.

(** On any other event [Start] enters the loop and never returns. *)
Lemma Start_failure_loops (SuccessEventType : string) (p : Pinger)
    (queue : list Arrival) :
  Type_ (WaitForEvent (natEventWaiter p)) <> SuccessEventType ->
  exists b : BlockPoint, snd (Start SuccessEventType p queue) = Blocked b.
Proof.
  intros E. unfold Start. apply String.eqb_neq in E. rewrite E.
  rewrite !bind_emit. cbn [prepend snd]. apply dispatchLoop_never_returns.
Qed.

Lemma dispatchLoop_ignores_pool (p : Pinger) (pool : PortSupplier)
    (queue : list Arrival) :
  forall fresh : Conn,
    dispatchLoop (withPool p pool) fresh queue = dispatchLoop p fresh queue.
Proof.
  induction queue as [| a queue IH]; intros fresh; cbn [dispatchLoop];
    [reflexivity |].
  change (serve (withPool p pool) fresh a) with (serve p fresh a).
  unfold bind. destruct (serve p fresh a) as [t [[] | b]]; [| reflexivity].
  now rewrite IH.
Qed.

(** C8 (as amended). The socket of a provider-side attempt is dialled from
    the local port carried by the request itself, [Params.Port]; the Port
    Supplier held by the Pinger plays no part: with any other supplier the
    run of [Start] is the same. *)
Theorem serve_dials_from_request_port (p : Pinger) (fresh : Conn)
    (a : Arrival) :
  let r := Parse (configParser p) (RequestConfig (request a)) in
  (forall lp : Z,
     In lp (localPorts (fst (serve p fresh a))) -> lp = Port (request a))
  /\ (isAvailable (natProxy p) (pServiceType r) = true ->
      pPort r <> 0 ->
      resolveErr (net a) = None ->
      localPorts (fst (serve p fresh a)) = [Port (request a)])
  /\ (forall (pool : PortSupplier) (SuccessEventType : string)
             (queue : list Arrival),
        Start SuccessEventType (withPool p pool) queue
        = Start SuccessEventType p queue).
Proof.
  cbn zeta. rewrite serve_run.
  set (r := Parse (configParser p) (RequestConfig (request a))).
  destruct (decodeTrace_counts (request a) r) as [_ [_ [_ Dl]]].
  destruct (pingReceiver_counts fresh (senderListening fresh (ticks (net a)))
              (reads (net a))) as [_ [_ [_ Rl]]].
  cbn zeta in Rl. cbn [prepend fst]. rewrite localPorts_app, Dl.
  cbn [app].
  split; [| split].
  - intros lp Hin.
    destruct (isAvailable (natProxy p) (pServiceType r)) eqn:Ha;
      [destruct (Z.eq_dec (pPort r) 0) as [Hp | Hp];
       [| destruct (resolveErr (net a)) eqn:Hr;
          [| destruct (dialErr (net a)) eqn:Hd]] |].
    4: {
      rewrite (punch_dialled _ _ _ _ _ _ _ Ha Hp Hr Hd) in Hin.
      destruct (pingReceiver fresh (senderListening fresh (ticks (net a)))
                  (reads (net a))) as [t [[e |] | b]];
        cbn [fst snd prepend app localPorts] in *;
        rewrite ?localPorts_app, Rl in Hin; cbn in Hin;
        destruct Hin as [<- | []]; reflexivity. }
    all: destruct (punch_skipped p fresh (request a) (net a) (pIP r)
                     (pPort r) (pServiceType r)) as [t [E [_ Hl]]];
      [first [now left | now (right; left)
             | right; right; left; congruence
             | right; right; right; congruence] |].
    all: rewrite E in Hin; exact (Hl lp Hin).
  - intros Ha Hp Hr. destruct (dialErr (net a)) eqn:Hd.
    + unfold punch, getConnection. rewrite Ha, Hr, Hd.
      apply Z.eqb_neq in Hp. rewrite Hp. cbn [negb].
      autorewrite with run. reflexivity.
    + rewrite (punch_dialled _ _ _ _ _ _ _ Ha Hp Hr Hd).
      destruct (pingReceiver fresh (senderListening fresh (ticks (net a)))
                  (reads (net a))) as [t [[e |] | b]];
        cbn [fst snd prepend app localPorts] in *;
        rewrite ?localPorts_app, Rl; reflexivity.
  - intros pool S queue. unfold Start.
    change (natEventWaiter (withPool p pool)) with (natEventWaiter p).
    rewrite !bind_emit.
    destruct (Type_ (WaitForEvent (natEventWaiter p)) =? S)%string;
      [reflexivity |].
    now rewrite dispatchLoop_ignores_pool.
Qed.

Lemma serve_dials_from_request_port_witness :
  localPorts (fst (serve samplePinger 0%nat
                     (mkArrival sampleRequest answering)))
  = [Port sampleRequest].
Proof.
  refine (proj1 (proj2 (serve_dials_from_request_port samplePinger 0%nat
                          (mkArrival sampleRequest answering)))
            eq_refl _ eq_refl).
  discriminate.
Defined.

(** C8 (as stated) fails: the supplier of [samplePinger] hands out port 5000,
    the request carries 6000, and the socket is dialled from 6000. *)
Lemma port_not_from_supplier :
  Acquire (portPool samplePinger) = inl 5000
  /\ localPorts (fst (serve samplePinger 0%nat
                        (mkArrival sampleRequest answering))) = [6000]
  /\ ~ port_from_supplier samplePinger
         (fst (serve samplePinger 0%nat (mkArrival sampleRequest answering))).
Proof.
  split; [reflexivity | split; [reflexivity |]].
  intros H. specialize (H 6000 (or_introl eq_refl)). discriminate H.
Qed.

(** ** Theorems: the consumer side *)

Lemma PingProvider_dialled (p : Pinger) (fresh : Conn) (env : NetEnv)
    (ip : string) (port : Z) :
  resolveErr env = None ->
  dialErr env = None ->
  PingProvider p fresh env ip port
  = prepend [Log Info "NAT pinging to provider"; Resolved ip port None;
             Log Info "remote socket: ";
             Dialed (consumerPort p) ip port (inl fresh);
             Log Info "local socket: "; Go_ping fresh; Sleep pingInterval]
      (match pingReceiver fresh (senderListening fresh (ticks env))
               (reads env) with
       | (t, Returned None) =>
           (t ++ [Sleep 200; Close fresh], Returned None)
       | (t, Returned (Some e)) => (t ++ [Close fresh], Returned (Some e))
       | (t, Blocked b) => (t, Blocked b)
       end).
Proof.
  intros Hr Hd. unfold PingProvider, getConnection. rewrite Hr, Hd.
  autorewrite with run. cbn [app]. f_equal.
  destruct (pingReceiver fresh (senderListening fresh (ticks env))
              (reads env)) as [t [[e |] | b]]; reflexivity.
Qed.

(** The consumer side closes its socket exactly once whenever it returns,
    whether the race succeeded or timed out. *)
Lemma PingProvider_closes_socket (p : Pinger) (fresh : Conn) (env : NetEnv)
    (ip : string) (port : Z) (res : option error) :
  resolveErr env = None ->
  dialErr env = None ->
  snd (PingProvider p fresh env ip port) = Returned res ->
  closes_of fresh (fst (PingProvider p fresh env ip port)) = 1%nat.
Proof.
  intros Hr Hd. rewrite (PingProvider_dialled _ _ _ _ _ Hr Hd).
  destruct (pingReceiver_counts fresh (senderListening fresh (ticks env))
              (reads env)) as [_ [_ [Rc _]]].
  cbn zeta in Rc.
  destruct (pingReceiver fresh (senderListening fresh (ticks env))
              (reads env)) as [t [[e |] | b]];
    cbn [fst snd prepend] in *; intros Hres; try discriminate;
    rewrite !closes_of_app, Rc; cbn; now rewrite Nat.eqb_refl.
Qed.

(** The consumer side dials from whatever the [consumerPort] field holds. *)
Lemma PingProvider_localPorts (p : Pinger) (fresh : Conn) (env : NetEnv)
    (ip : string) (port : Z) :
  resolveErr env = None ->
  localPorts (fst (PingProvider p fresh env ip port)) = [consumerPort p].
Proof.
  intros Hr.
  destruct (pingReceiver_counts fresh (senderListening fresh (ticks env))
              (reads env)) as [_ [_ [_ Rl]]].
  cbn zeta in Rl.
  destruct (dialErr env) as [e |] eqn:Hd.
  - unfold PingProvider, getConnection. rewrite Hr, Hd.
    autorewrite with run. reflexivity.
  - rewrite (PingProvider_dialled _ _ _ _ _ Hr Hd).
    destruct (pingReceiver fresh (senderListening fresh (ticks env))
                (reads env)) as [t [[e |] | b]];
      cbn [fst snd prepend app localPorts] in *;
      rewrite ?localPorts_app, Rl; reflexivity.
Qed.

(** C9. A Pinger fresh from [NewPingerFactory], on which [BindConsumerPort]
    was never called, has consumer port 0; [PingProvider] does not check it:
    it resolves the address and dials the socket from local port 0, and with
    the socket open it launches the sender and sleeps one ping interval
    before the race, as it does from the bound port after
    [BindConsumerPort]. *)
Theorem PingProvider_unbound_consumer_port (waiter : NatEventWaiter)
    (parser : ConfigParser) (proxy : NatProxy) (pool : PortSupplier)
    (fresh : Conn) (env : NetEnv) (ip : string) (port : Z) :
  let p := NewPingerFactory waiter parser proxy pool in
  resolveErr env = None ->
  consumerPort p = 0
  /\ localPorts (fst (PingProvider p fresh env ip port)) = [0]
  /\ (dialErr env = None ->
      firstn 7 (fst (PingProvider p fresh env ip port))
      = [Log Info "NAT pinging to provider"; Resolved ip port None;
         Log Info "remote socket: "; Dialed 0 ip port (inl fresh);
         Log Info "local socket: "; Go_ping fresh; Sleep pingInterval])
  /\ (forall bound : Z,
        localPorts (fst (PingProvider (BindConsumerPort p bound) fresh env
                           ip port)) = [bound]).
Proof.
  cbn zeta. intros Hr. split; [reflexivity |].
  split; [| split].
  - now rewrite PingProvider_localPorts.
  - intros Hd. now rewrite (PingProvider_dialled _ _ _ _ _ Hr Hd).
  - intros bound. now rewrite PingProvider_localPorts.
Qed.

Lemma PingProvider_unbound_consumer_port_witness :
  localPorts (fst (PingProvider
                     (NewPingerFactory (mkWaiter (mkEvent "failure"))
                        (configParser samplePinger) (natProxy samplePinger)
                        (portPool samplePinger))
                     0%nat answering "203.0.113.7" 4000))
  = [0].
Proof.
  exact (proj1 (proj2 (PingProvider_unbound_consumer_port
                         (mkWaiter (mkEvent "failure"))
                         (configParser samplePinger) (natProxy samplePinger)
                         (portPool samplePinger)
                         0%nat answering "203.0.113.7" 4000 eq_refl))).
Defined.

(** ** Further facts *)

(** The cancellation needs a sender that still listens: once the sender has
    returned on a failed [SetTTL] or [Write], the receiver that got its
    datagram stays blocked on the channel. *)
Lemma pingReceiver_needs_sender (conn : Conn) (d n : Z)
    (rest : list ReadCall) :
  senderListening conn [mkTick None (Some "connection refused")] = false
  /\ pingReceiver conn false (mkRead d (ReadOk n) :: rest)
     = ([Read conn d (ReadOk n); Println n; After 400], Blocked OnCancelSend).
Proof. split; reflexivity. Qed.

(** ** More on the sender *)

Lemma pingLoop_ok_ticks (conn : Conn) (oks : list TickIO) :
  forall (k : nat) (rest : list SenderInput),
    forallb tickOk oks = true ->
    pingLoop conn (counterAt k) (map Tick oks ++ rest)
    = prepend (tickTrace conn k (List.length oks))
        (pingLoop conn (counterAt (k + List.length oks)) rest).
Proof.
  induction oks as [| io oks IH]; intros k rest Hok.
  - cbn [map app List.length tickTrace]. rewrite Nat.add_0_r.
    unfold prepend. now destruct (pingLoop conn (counterAt k) rest).
  - cbn [forallb] in Hok. apply andb_true_iff in Hok as [Hio Hok].
    unfold tickOk in Hio.
    cbn [map app pingLoop List.length tickTrace].
    destruct (ttlErr io); [discriminate |].
    destruct (writeErr io); [discriminate |].
    rewrite clamp_counterAt, next_counterAt.
    autorewrite with run. rewrite (IH (S k) rest Hok).
    rewrite prepend_prepend. cbn [app].
    now replace (S k + List.length oks)%nat with (k + S (List.length oks))%nat
      by lia.
Qed.

Lemma tickTrace_counts (conn : Conn) (m : nat) :
  forall k : nat,
    writes (tickTrace conn k m) = m /\ ttlSets (tickTrace conn k m) = m.
Proof.
  unfold writes, ttlSets.
  induction m as [| m IH]; intros k; [split; reflexivity |].
  destruct (IH (S k)) as [Hw Hs]. cbn [tickTrace filter List.length].
  now rewrite Hw, Hs.
Qed.

(** X1. The sender stops at the first tick whose [SetTTL] or [Write] fails
    and returns that error, the [SetTTL] error wrapped, the [Write] error as
    it is; a failed [SetTTL] is not followed by a write, so no datagram is
    ever written with a TTL that was not set; what the schedule holds after
    the failing tick (ticks, cancellation) is never looked at. *)
Theorem ping_stops_at_first_failure (conn : Conn) (oks : list TickIO)
    (io : TickIO) (rest : list SenderInput) :
  forallb tickOk oks = true ->
  tickOk io = false ->
  let run := ping conn (map Tick oks ++ Tick io :: rest) in
  fst run
  = tickTrace conn 0 (List.length oks)
      ++ After pingInterval :: Log Trace "pinging.. "
      :: SetTTL conn (ttlAt (List.length oks))
      :: match ttlErr io with
         | Some _ => []
         | None => [Write conn]
         end
  /\ snd run = Returned (tickError io)
  /\ tickError io <> None
  /\ (writes (fst run) <= ttlSets (fst run) <= writes (fst run) + 1)%nat
  /\ (ttlErr io <> None -> writes (fst run) = List.length oks).
Proof.
  intros Hok Hio. cbn zeta. unfold ping. change 1 with (counterAt 0).
  rewrite (pingLoop_ok_ticks conn oks 0 (Tick io :: rest) Hok).
  cbn [Nat.add pingLoop]. rewrite clamp_counterAt.
  destruct (tickTrace_counts conn (List.length oks) 0%nat) as [Hw Hs].
  unfold tickOk in Hio. unfold tickError.
  destruct (ttlErr io) as [e |]; [| destruct (writeErr io) as [e |];
                                    [| discriminate]];
    autorewrite with run; cbn [prepend fst snd ret app];
    unfold writes, ttlSets in *;
    rewrite !filter_length_app, Hw, Hs; cbn [filter List.length];
    repeat split; try discriminate; try lia; try congruence;
    now rewrite app_nil_r, <- !app_assoc.
Qed.

Lemma ping_stops_at_first_failure_witness :
  ping 0%nat (map Tick [okTick; okTick]
              ++ Tick (mkTick (Some "no route") None) :: [Cancel])
  = ([After 200; Log Trace "pinging.. "; SetTTL 0%nat 1; Write 0%nat;
      After 200; Log Trace "pinging.. "; SetTTL 0%nat 2; Write 0%nat;
      After 200; Log Trace "pinging.. "; SetTTL 0%nat 3],
     Returned (Some "pinger setting ttl failed: no route")).
Proof.
  pose proof (ping_stops_at_first_failure 0%nat [okTick; okTick]
                (mkTick (Some "no route") None) [Cancel] eq_refl eq_refl)
    as [Ht [Ho _]].
  rewrite (surjective_pairing (ping _ _)), Ht, Ho. reflexivity.
Defined.

Lemma pingLoop_nil_cancelled (conn : Conn) (sched : list SenderInput) :
  forall k : nat,
    snd (pingLoop conn (counterAt k) sched) = Returned None ->
    exists (oks : list TickIO) (rest : list SenderInput),
      sched = map Tick oks ++ Cancel :: rest /\ forallb tickOk oks = true.
Proof.
  induction sched as [| [| io] sched IH]; intros k H.
  - discriminate.
  - exists [], sched. split; reflexivity.
  - cbn [pingLoop] in H. rewrite clamp_counterAt, next_counterAt in H.
    destruct (ttlErr io) as [e |] eqn:Et;
      [autorewrite with run in H; discriminate |].
    destruct (writeErr io) as [e |] eqn:Ew;
      [autorewrite with run in H; discriminate |].
    autorewrite with run in H. cbn [prepend snd] in H.
    destruct (IH (S k) H) as [oks [rest [-> Hok]]].
    exists (io :: oks), rest. split; [reflexivity |].
    cbn [forallb]. unfold tickOk at 1. now rewrite Et, Ew.
Qed.

(** X2. The sender returns [nil] exactly when it takes a cancellation: after
    any number of successful ticks a cancellation ends it at once, with no
    further TTL or write; and a run that returns [nil] was cancelled after
    successful ticks only. *)
Theorem ping_nil_iff_cancelled (conn : Conn) (sched : list SenderInput) :
  snd (ping conn sched) = Returned None
  <-> exists (oks : list TickIO) (rest : list SenderInput),
        sched = map Tick oks ++ Cancel :: rest
        /\ forallb tickOk oks = true
        /\ fst (ping conn sched)
           = tickTrace conn 0 (List.length oks) ++ [Recv_pingCancelled].
Proof.
  unfold ping. change 1 with (counterAt 0). split.
  - intros H. destruct (pingLoop_nil_cancelled conn sched 0%nat H)
      as [oks [rest [-> Hok]]].
    exists oks, rest. split; [reflexivity | split; [assumption |]].
    now rewrite (pingLoop_ok_ticks conn oks 0 (Cancel :: rest) Hok).
  - intros [oks [rest [-> [Hok _]]]].
    now rewrite (pingLoop_ok_ticks conn oks 0 (Cancel :: rest) Hok).
Qed.

Lemma ping_nil_iff_cancelled_witness :
  snd (ping 4%nat (map Tick [okTick; okTick; okTick] ++ Cancel :: [Tick okTick]))
  = Returned None.
Proof.
  apply (proj2 (ping_nil_iff_cancelled 4%nat
                  (map Tick [okTick; okTick; okTick]
                   ++ Cancel :: [Tick okTick]))).
  exists [okTick; okTick; okTick], [Tick okTick].
  repeat split.
Defined.

(** ** More on the receiver *)

(** X3. When every read fails and the failed reads, with their 200 ms sleeps,
    carry the loop past the deadline, the next poll of the timer hands one
    cancellation to the listening sender and returns the timeout error; this
    happens at the end of the sleep that follows the read in progress at the
    deadline, so later than 10,000 ms by less than that read and its sleep;
    what the socket would deliver afterwards is never read. *)
Theorem pingReceiver_times_out_after_failed_reads (conn : Conn)
    (front : list ReadCall) (r : ReadCall) (rest : list ReadCall) :
  Forall (fun r => failedRead r = true) (front ++ [r]) ->
  Forall (fun r => 0 <= took r) (front ++ [r]) ->
  span front < pingTimeout ->
  pingTimeout <= span (front ++ [r]) ->
  let run := pingReceiver conn true ((front ++ [r]) ++ rest) in
  run = (errTrace conn (front ++ [r]) ++ [Send_pingCancelled],
         Returned (Some "NAT punch attempt timed out"))
  /\ cancellations (fst run) = 1%nat
  /\ datagrams (fst run) = 0%nat
  /\ pingTimeout <= elapsed (fst run) < pingTimeout + (took r + pingInterval).
Proof.
  intros Hf Hn Hlt Hge run.
  assert (E : run = (errTrace conn (front ++ [r]) ++ [Send_pingCancelled],
                     Returned (Some "NAT punch attempt timed out")))
    by (apply pingReceiver_timeout_after_failed_reads; assumption).
  rewrite E. cbn [fst]. split; [reflexivity |].
  unfold cancellations, datagrams.
  rewrite !filter_length_app, elapsed_app, errTrace_elapsed.
  fold (cancellations (errTrace conn (front ++ [r])))
       (datagrams (errTrace conn (front ++ [r]))).
  rewrite errTrace_cancellations, (errTrace_datagrams conn _ Hf).
  rewrite span_app in *. cbn [span elapsed duration filter List.length] in *.
  repeat split; lia.
Qed.

Lemma pingReceiver_times_out_after_failed_reads_witness :
  pingReceiver 0%nat true ((repeat refused 49 ++ [refused]) ++ [mkRead 5 (ReadOk 9)])
  = (errTrace 0%nat (repeat refused 49 ++ [refused]) ++ [Send_pingCancelled],
     Returned (Some "NAT punch attempt timed out")).
Proof.
  refine (proj1 (pingReceiver_times_out_after_failed_reads 0%nat
                   (repeat refused 49) refused [mkRead 5 (ReadOk 9)]
                   _ _ _ _)).
  - repeat constructor.
  - repeat (constructor; [cbv; discriminate |]). constructor.
  - reflexivity.
  - cbv. discriminate.
Defined.

Lemma receiveLoop_returns (conn : Conn) (listening : bool)
    (reads : list ReadCall) :
  forall since : Z,
    let run := receiveLoop conn listening since reads in
    (forall e, snd run = Returned (Some e) ->
               e = "NAT punch attempt timed out"
               /\ pingTimeout <= since + elapsed (fst run)
               /\ datagrams (fst run) = 0%nat
               /\ cancellations (fst run) = 1%nat)
    /\ (snd run = Returned None ->
        datagrams (fst run) = 1%nat /\ cancellations (fst run) = 1%nat).
Proof.
  induction reads as [| r reads IH]; intros since; cbn zeta;
    cbn [receiveLoop]; destruct (Z.leb_spec pingTimeout since) as [Hle | Hlt];
    try solve [destruct listening; cbn;
               (split;
                [intros e H; inversion H;
                 (split; [reflexivity | split; [lia | split; reflexivity]])
                | discriminate])];
    try solve [cbn; (split; [intros e H | intros H]); discriminate].
  rewrite bind_emit.
  destruct (result r) as [n | e0] eqn:Er.
  - destruct listening; cbn; rewrite ?Er;
      (split; [intros e H; discriminate | intros H]);
      try discriminate; split; reflexivity.
  - rewrite !bind_emit, !prepend_prepend.
    destruct (IH (since + took r + pingInterval)) as [He Hn].
    cbn [prepend fst snd app elapsed duration] in *.
    unfold datagrams, cancellations in *. cbn [filter].
    split.
    + intros e H. destruct (He e H) as [-> [Ht [Hd Hc]]].
      repeat split; try assumption. unfold pingInterval in *. lia.
    + exact Hn.
Qed.

(** X4. Whatever the socket does, a read error is never what [pingReceiver]
    returns: the only error is the timeout error, returned no earlier than
    10,000 ms after entry and only when no datagram was read; success is
    returned after exactly one datagram was read; either way exactly one
    cancellation was handed over before the return. *)
Theorem pingReceiver_results (conn : Conn) (listening : bool)
    (reads : list ReadCall) :
  let run := pingReceiver conn listening reads in
  (forall e, snd run = Returned (Some e) ->
             e = "NAT punch attempt timed out"
             /\ pingTimeout <= elapsed (fst run)
             /\ datagrams (fst run) = 0%nat
             /\ cancellations (fst run) = 1%nat)
  /\ (snd run = Returned None ->
      datagrams (fst run) = 1%nat /\ cancellations (fst run) = 1%nat).
Proof.
  exact (receiveLoop_returns conn listening reads 0).
Qed.

Lemma pingReceiver_results_witness :
  datagrams (fst (pingReceiver 0%nat true (reads answering))) = 1%nat
  /\ cancellations (fst (pingReceiver 0%nat true (reads answering))) = 1%nat.
Proof.
  exact (proj2 (pingReceiver_results 0%nat true (reads answering)) eq_refl).
Defined.

Lemma senderListening_forallb (conn : Conn) (ticks : list TickIO) :
  senderListening conn ticks = forallb tickOk ticks.
Proof.
  unfold senderListening, ping. change 1 with (counterAt 0).
  generalize 0%nat as k.
  induction ticks as [| io ticks IH]; intros k; [reflexivity |].
  cbn [map pingLoop forallb]. rewrite clamp_counterAt, next_counterAt.
  unfold tickOk at 1.
  destruct (ttlErr io); [autorewrite with run; reflexivity |].
  destruct (writeErr io); [autorewrite with run; reflexivity |].
  autorewrite with run. cbn [prepend snd andb]. apply IH.
Qed.

Lemma receiveLoop_without_sender (conn : Conn) (reads : list ReadCall) :
  forall since : Z,
    let run := receiveLoop conn false since reads in
    (snd run = Blocked InRead \/ snd run = Blocked OnCancelSend)
    /\ cancellations (fst run) = 0%nat.
Proof.
  induction reads as [| r reads IH]; intros since; cbn zeta;
    cbn [receiveLoop]; destruct (pingTimeout <=? since);
    try solve [cbn; tauto].
  rewrite bind_emit. destruct (result r) as [n | e].
  - cbn. tauto.
  - rewrite !bind_emit, !prepend_prepend.
    destruct (IH (since + took r + pingInterval)) as [Ho Hc].
    cbn [prepend fst snd app]. split; [exact Ho | exact Hc].
Qed.

(** X5. Once a [SetTTL] or a [Write] of the sender has failed, the sender
    has returned and nobody takes the cancellation any more: whatever the
    socket then delivers (a datagram, failures until the deadline, nothing),
    [pingReceiver] never returns; it stays in [Read] or on the send to
    [pingCancelled], and no cancellation is handed over. *)
Theorem pingReceiver_hangs_without_sender (conn : Conn)
    (ticks : list TickIO) (reads : list ReadCall) :
  forallb tickOk ticks = false ->
  let run := pingReceiver conn (senderListening conn ticks) reads in
  senderListening conn ticks = false
  /\ (snd run = Blocked InRead \/ snd run = Blocked OnCancelSend)
  /\ cancellations (fst run) = 0%nat.
Proof.
  intros H. cbn zeta. rewrite senderListening_forallb, H.
  split; [reflexivity |]. exact (receiveLoop_without_sender conn reads 0).
Qed.

Lemma pingReceiver_hangs_without_sender_witness :
  snd (pingReceiver 0%nat
         (senderListening 0%nat
            [okTick; mkTick None (Some "connection refused")])
         (reads answering))
  = Blocked OnCancelSend.
Proof.
  destruct (pingReceiver_hangs_without_sender 0%nat
              [okTick; mkTick None (Some "connection refused")]
              (reads answering) eq_refl) as [_ [[H | H] _]].
  - discriminate H.
  - exact H.
Defined.

(** ** More on the dispatch loop *)

Lemma serve_passes_over (p : Pinger) (fresh : Conn) (a : Arrival) :
  skipped p a || undialable a = true ->
  snd (serve p fresh a) = Returned tt
  /\ Forall (fun e => noAttempt e = true) (fst (serve p fresh a))
  /\ (skipped p a = true ->
      Forall (fun e => bookkeeping e = true) (fst (serve p fresh a))).
Proof.
  unfold skipped, undialable. cbn zeta. rewrite serve_run. cbn zeta.
  set (r := Parse (configParser p) (RequestConfig (request a))).
  unfold decodeTrace, punch, getConnection.
  destruct (pErr r); destruct (isAvailable (natProxy p) (pServiceType r));
    destruct (pPort r =? 0); destruct (resolveErr (net a));
    destruct (dialErr (net a)); cbn [negb orb];
    intros H; try discriminate H; autorewrite with run;
    cbn [prepend fst snd app emit ret];
    (split; [reflexivity |]);
    (split; [repeat constructor | intros H'; try discriminate H';
                                   repeat constructor]).
Qed.

Lemma serve_returns_with_race (p : Pinger) (fresh : Conn) (a : Arrival) :
  returns (raceOf fresh a) = true -> snd (serve p fresh a) = Returned tt.
Proof.
  unfold returns, raceOf. intros H.
  destruct (skipped p a || undialable a) eqn:Hs.
  - apply serve_passes_over, Hs.
  - unfold skipped, undialable in Hs. cbn zeta in Hs.
    apply orb_false_iff in Hs as [Hs Hu]. apply orb_false_iff in Hs as [Ha Hp].
    apply negb_false_iff in Ha. apply Z.eqb_neq in Hp.
    destruct (resolveErr (net a)) eqn:Hr; [discriminate |].
    destruct (dialErr (net a)) eqn:Hd; [discriminate |].
    rewrite serve_run. cbn zeta.
    rewrite (punch_dialled _ _ _ _ _ _ _ Ha Hp Hr Hd).
    destruct (pingReceiver fresh (senderListening fresh (ticks (net a)))
                (reads (net a))) as [t [[e |] | b]];
      cbn [snd prepend] in *; try reflexivity; discriminate.
Qed.

(** The loop over a queue whose first requests all end. *)
Lemma dispatchLoop_app (p : Pinger) (pre : list Arrival) :
  forall (fresh : Conn) (q : list Arrival),
    (forall i a, nth_error pre i = Some a ->
                 snd (serve p (fresh + i)%nat a) = Returned tt) ->
    exists t : list Effect,
      dispatchLoop p fresh (pre ++ q)
      = prepend t (dispatchLoop p (fresh + List.length pre)%nat q)
      /\ dequeued t = map request pre
      /\ forall Q : Effect -> bool,
           (forall i a, nth_error pre i = Some a ->
                        Forall (fun e => Q e = true)
                          (fst (serve p (fresh + i)%nat a))) ->
           Forall (fun e => Q e = true) t.
Proof.
  induction pre as [| a pre IH]; intros fresh q H.
  - exists []. cbn [app List.length]. rewrite Nat.add_0_r.
    split; [| split; [reflexivity | constructor]].
    unfold prepend. now destruct (dispatchLoop p fresh q).
  - pose proof (H 0%nat a eq_refl) as Ha. rewrite Nat.add_0_r in Ha.
    destruct (IH (S fresh) q) as [t [E [Hd HQ]]].
    { intros i b Hi. specialize (H (S i) b Hi).
      now replace (S fresh + i)%nat with (fresh + S i)%nat by lia. }
    destruct (serve_serial p fresh a) as [_ [_ Hda]]. cbn zeta in Hda.
    exists (fst (serve p fresh a) ++ t).
    split; [| split].
    + cbn [app dispatchLoop]. rewrite E. unfold bind.
      destruct (serve p fresh a) as [ta oa]. cbn [fst snd] in *. subst oa.
      unfold prepend.
      replace (fresh + List.length (a :: pre))%nat
        with (S fresh + List.length pre)%nat by (cbn [List.length]; lia).
      destruct (dispatchLoop p (S fresh + List.length pre)%nat q) as [t' o'].
      cbn [fst snd]. now rewrite app_assoc.
    + rewrite dequeued_app, Hda, Hd. reflexivity.
    + intros Q HQa. apply Forall_app. split.
      * specialize (HQa 0%nat a eq_refl). now rewrite Nat.add_0_r in HQa.
      * apply HQ. intros i b Hi. specialize (HQa (S i) b Hi).
        now replace (S fresh + i)%nat with (fresh + S i)%nat by lia.
Qed.

Lemma Start_enters_loop (SuccessEventType : string) (p : Pinger)
    (queue : list Arrival) :
  Type_ (WaitForEvent (natEventWaiter p)) <> SuccessEventType ->
  Start SuccessEventType p queue
  = prepend [Log Info "Starting a NAT pinger";
             Waited (WaitForEvent (natEventWaiter p))]
      (dispatchLoop p 0%nat queue).
Proof.
  intros E. unfold Start. apply String.eqb_neq in E. rewrite E.
  now autorewrite with run.
Qed.

Lemma nth_error_forallb {A : Type} (f : A -> bool) (l : list A) (i : nat)
    (a : A) :
  forallb f l = true -> nth_error l i = Some a -> f a = true.
Proof.
  intros H Hi. apply nth_error_In in Hi.
  rewrite forallb_forall in H. now apply H.
Qed.

(** X6. Requests whose service has no available proxy, whose decoded port is
    zero, or whose socket cannot be resolved or dialled never start an
    attempt and never stall the loop: on a queue of such requests [Start]
    takes every request off the queue, in order, opens no socket, launches no
    sender, hands nothing off, and ends waiting for the next request; when
    the requests are all of the first two kinds it performs no network
    operation at all. *)
Theorem Start_passes_over (SuccessEventType : string) (p : Pinger)
    (queue : list Arrival) :
  Type_ (WaitForEvent (natEventWaiter p)) <> SuccessEventType ->
  forallb (fun a => skipped p a || undialable a) queue = true ->
  let run := Start SuccessEventType p queue in
  snd run = Blocked OnQueue
  /\ dequeued (fst run) = map request queue
  /\ sockets_opened (fst run) = 0%nat
  /\ launches (fst run) = 0%nat
  /\ handoffs (fst run) = 0%nat
  /\ (forallb (skipped p) queue = true ->
      Forall (fun e => networkEffect e = false) (fst run)).
Proof.
  intros E Hq. cbn zeta. rewrite (Start_enters_loop _ _ _ E).
  destruct (dispatchLoop_app p queue 0%nat []) as [t [Et [Hd HQ]]].
  { intros i a Hi. apply serve_passes_over.
    exact (nth_error_forallb _ _ _ _ Hq Hi). }
  rewrite app_nil_r in Et. rewrite Et.
  cbn [dispatchLoop prepend block fst snd app dequeued].
  rewrite app_nil_r.
  assert (Hn : Forall (fun e => noAttempt e = true) t).
  { apply HQ. intros i a Hi. apply serve_passes_over.
    exact (nth_error_forallb _ _ _ _ Hq Hi). }
  split; [reflexivity | split; [exact Hd |]].
  split; [| split; [| split]].
  - eapply (filter_none _ noAttempt); [| repeat constructor; exact Hn].
    intros [] H; try discriminate H; try reflexivity.
    destruct r; [discriminate H | reflexivity].
  - eapply (filter_none _ noAttempt); [| repeat constructor; exact Hn].
    intros [] H; try discriminate H; reflexivity.
  - eapply (filter_none _ noAttempt); [| repeat constructor; exact Hn].
    intros [] H; try discriminate H; reflexivity.
  - intros Hs. repeat constructor.
    assert (Hb : Forall (fun e => bookkeeping e = true) t).
    { apply HQ. intros i a Hi.
      apply (serve_passes_over p (0 + i)%nat a
               (nth_error_forallb _ _ _ _ Hq Hi)).
      exact (nth_error_forallb _ _ _ _ Hs Hi). }
    eapply Forall_impl; [| exact Hb].
    intros [] H; try discriminate H; reflexivity.
Qed.

Lemma Start_passes_over_witness :
  let unavailable :=
    mkPinger (natEventWaiter samplePinger) (configParser samplePinger)
      (mkProxy (fun _ => false)) (portPool samplePinger) 0 in
  let run := Start "success" unavailable
               [mkArrival sampleRequest answering;
                mkArrival sampleRequest refusing] in
  snd run = Blocked OnQueue
  /\ dequeued (fst run) = [sampleRequest; sampleRequest]
  /\ Forall (fun e => networkEffect e = false) (fst run).
Proof.
  cbv zeta.
  destruct (Start_passes_over "success"
              (mkPinger (natEventWaiter samplePinger)
                 (configParser samplePinger) (mkProxy (fun _ => false))
                 (portPool samplePinger) 0)
              [mkArrival sampleRequest answering;
               mkArrival sampleRequest refusing]
              ltac:(discriminate) eq_refl) as [Ho [Hd [_ [_ [_ Hn]]]]].
  split; [exact Ho | split; [exact Hd | exact (Hn eq_refl)]].
Defined.

(** X7. A timeout, a skipped request or a failed dial is terminal for its
    own request only: whenever the race of each request ends (with success or
    with the timeout error), [Start] takes every request off the queue, in
    the order of the queue, and ends waiting for the next one. *)
Theorem Start_serves_all_when_races_end (SuccessEventType : string)
    (p : Pinger) (queue : list Arrival) :
  Type_ (WaitForEvent (natEventWaiter p)) <> SuccessEventType ->
  (forall i a, nth_error queue i = Some a -> returns (raceOf i a) = true) ->
  snd (Start SuccessEventType p queue) = Blocked OnQueue
  /\ dequeued (fst (Start SuccessEventType p queue)) = map request queue.
Proof.
  intros E Hq. rewrite (Start_enters_loop _ _ _ E).
  destruct (dispatchLoop_app p queue 0%nat []) as [t [Et [Hd _]]].
  { intros i a Hi. apply serve_returns_with_race. exact (Hq i a Hi). }
  rewrite app_nil_r in Et. rewrite Et.
  cbn [dispatchLoop prepend block fst snd app dequeued].
  now rewrite app_nil_r.
Qed.

Lemma Start_serves_all_when_races_end_witness :
  dequeued (fst (Start "success" samplePinger
                   [mkArrival sampleRequest refusing;
                    mkArrival sampleRequest answering]))
  = [sampleRequest; sampleRequest].
Proof.
  refine (proj2 (Start_serves_all_when_races_end "success" samplePinger
                   [mkArrival sampleRequest refusing;
                    mkArrival sampleRequest answering]
                   ltac:(discriminate) _)).
  intros [| [| i]] a Hi; inversion Hi; subst.
  - vm_compute. reflexivity.
  - vm_compute. reflexivity.
  - destruct i; discriminate.
Defined.







Lemma serve_blocks_with_race (p : Pinger) (fresh : Conn) (a : Arrival)
    (b : BlockPoint) :
  skipped p a || undialable a = false ->
  snd (raceOf fresh a) = Blocked b ->
  snd (serve p fresh a) = Blocked b.
Proof.
  unfold raceOf. intros Hs Hb.
  unfold skipped, undialable in Hs. cbn zeta in Hs.
  apply orb_false_iff in Hs as [Hs Hu]. apply orb_false_iff in Hs as [Ha Hp].
  apply negb_false_iff in Ha. apply Z.eqb_neq in Hp.
  destruct (resolveErr (net a)) eqn:Hr; [discriminate |].
  destruct (dialErr (net a)) eqn:Hd; [discriminate |].
  rewrite serve_run. cbn zeta.
  rewrite (punch_dialled _ _ _ _ _ _ _ Ha Hp Hr Hd).
  destruct (pingReceiver fresh (senderListening fresh (ticks (net a)))
              (reads (net a))) as [t [[e |] | b']];
    cbn [snd prepend] in *; try discriminate.
  injection Hb as ->. reflexivity.
Qed.

(** X9. One attempt that hangs stalls the provider side for good: when the
    race of a request whose socket was opened never returns (its [Read]
    never delivers, or its sender has gone), [Start] stays blocked there and
    no request behind it is ever taken off the queue, however many there
    are. *)
Theorem Start_stalls_behind_hung_attempt (SuccessEventType : string)
    (p : Pinger) (pre : list Arrival) (a : Arrival) (rest : list Arrival)
    (b : BlockPoint) :
  Type_ (WaitForEvent (natEventWaiter p)) <> SuccessEventType ->
  (forall i x, nth_error pre i = Some x -> returns (raceOf i x) = true) ->
  skipped p a || undialable a = false ->
  snd (raceOf (List.length pre) a) = Blocked b ->
  let run := Start SuccessEventType p (pre ++ a :: rest) in
  snd run = Blocked b
  /\ dequeued (fst run) = map request (pre ++ [a]).
Proof.
  intros E Hpre Hs Hb. cbn zeta. rewrite (Start_enters_loop _ _ _ E).
  assert (Hret : forall i x, nth_error pre i = Some x ->
                             snd (serve p (0 + i)%nat x) = Returned tt)
    by (intros i x Hi; apply serve_returns_with_race; exact (Hpre i x Hi)).
  destruct (dispatchLoop_app p pre 0%nat (a :: rest) Hret) as [t [Et [Hd _]]].
  rewrite Et. cbn [Nat.add dispatchLoop].
  pose proof (serve_blocks_with_race p (List.length pre) a b Hs Hb) as Hsb.
  destruct (serve_serial p (List.length pre) a) as [_ [_ Sd]].
  cbn zeta in Sd. unfold bind.
  destruct (serve p (List.length pre) a) as [ta oa]. cbn [fst snd] in *.
  subst oa. cbn [prepend fst snd].
  cbn [dequeued app]. rewrite !dequeued_app, Hd, Sd.
  rewrite map_app. split; reflexivity.
Qed.

(** A request whose sender fails at its first write; the peer answers. *)
Lemma Start_stalls_behind_hung_attempt_witness :
  let hung := mkArrival sampleRequest
                (mkNet None None [mkTick None (Some "connection refused")]
                   [mkRead 600 (ReadOk 5)]) in
  let run := Start "success" samplePinger
               ([mkArrival sampleRequest refusing]
                ++ hung :: [mkArrival sampleRequest answering]) in
  snd run = Blocked OnCancelSend
  /\ dequeued (fst run) = [sampleRequest; sampleRequest].
Proof.
  cbv zeta.
  refine (Start_stalls_behind_hung_attempt "success" samplePinger
            [mkArrival sampleRequest refusing]
            (mkArrival sampleRequest
               (mkNet None None [mkTick None (Some "connection refused")]
                  [mkRead 600 (ReadOk 5)]))
            [mkArrival sampleRequest answering] OnCancelSend
            ltac:(discriminate) _ eq_refl eq_refl).
  intros [| i] x Hi; [| destruct i; discriminate].
  inversion Hi; subst. vm_compute. reflexivity.
Defined.

Lemma receiveLoop_success_tail (conn : Conn) (listening : bool)
    (reads : list ReadCall) :
  forall since : Z,
    snd (receiveLoop conn listening since reads) = Returned None ->
    exists t : list Effect,
      fst (receiveLoop conn listening since reads)
      = t ++ [After (2 * pingInterval); Send_pingCancelled].
Proof.
  induction reads as [| r reads IH]; intros since; cbn [receiveLoop];
    destruct (pingTimeout <=? since);
    try solve [destruct listening; cbn; discriminate].
  rewrite bind_emit. destruct (result r) as [n | e].
  - destruct listening; cbn; [| discriminate]. intros _.
    now exists [Read conn (took r) (ReadOk n); Println n].
  - rewrite !bind_emit, !prepend_prepend. cbn [prepend fst snd app].
    intros H. destruct (IH _ H) as [t Ht]. rewrite Ht.
    now exists (Read conn (took r) (ReadErr e)
                :: Log Error "Failed to read remote peer"
                :: Sleep pingInterval :: t).
Qed.

(** X10. When the race of a request succeeds, the iteration ends by handing
    off, for the decoded service type, the socket it dialled from the
    request's port to the decoded address; the handoff comes after the 400 ms
    wait and the cancellation of the sender, and is the last thing the
    iteration does. *)
Theorem serve_hands_off_after_cancel (p : Pinger) (fresh : Conn)
    (a : Arrival) :
  let r := Parse (configParser p) (RequestConfig (request a)) in
  skipped p a || undialable a = false ->
  snd (raceOf fresh a) = Returned None ->
  snd (serve p fresh a) = Returned tt
  /\ exists t : list Effect,
       fst (serve p fresh a)
       = t ++ [After 400; Send_pingCancelled;
               Log Info "ping received, waiting for a new connection";
               Go_handOff (pServiceType r) fresh]
       /\ In (Dialed (Port (request a)) (pIP r) (pPort r) (inl fresh)) t
       /\ In (Go_ping fresh) t.
Proof.
  cbn zeta. unfold raceOf. intros Hs Hb.
  unfold skipped, undialable in Hs. cbn zeta in Hs.
  apply orb_false_iff in Hs as [Hs Hu]. apply orb_false_iff in Hs as [Ha Hp].
  apply negb_false_iff in Ha. apply Z.eqb_neq in Hp.
  destruct (resolveErr (net a)) eqn:Hr; [discriminate |].
  destruct (dialErr (net a)) eqn:Hd; [discriminate |].
  rewrite serve_run. cbn zeta.
  rewrite (punch_dialled _ _ _ _ _ _ _ Ha Hp Hr Hd).
  destruct (receiveLoop_success_tail fresh
              (senderListening fresh (ticks (net a))) (reads (net a)) 0 Hb)
    as [t Ht].
  fold (pingReceiver fresh (senderListening fresh (ticks (net a)))
          (reads (net a))) in Ht.
  destruct (pingReceiver fresh (senderListening fresh (ticks (net a)))
              (reads (net a))) as [tr [[e |] | b]];
    cbn [fst snd prepend] in *; try discriminate.
  split; [reflexivity |]. subst tr.
  set (r := Parse (configParser p) (RequestConfig (request a))).
  exists (decodeTrace (request a) r
          ++ [Log Info "ping target received";
              Resolved (pIP r) (pPort r) None; Log Info "remote socket: ";
              Dialed (Port (request a)) (pIP r) (pPort r) (inl fresh);
              Log Info "local socket: "; Go_ping fresh] ++ t).
  split; [| split].
  - rewrite <- !app_assoc. reflexivity.
  - apply in_or_app. right. cbn. tauto.
  - apply in_or_app. right. cbn. tauto.
Qed.

Lemma serve_hands_off_after_cancel_witness :
  snd (serve samplePinger 0%nat (mkArrival sampleRequest answering))
  = Returned tt
  /\ exists t : list Effect,
       fst (serve samplePinger 0%nat (mkArrival sampleRequest answering))
       = t ++ [After 400; Send_pingCancelled;
               Log Info "ping received, waiting for a new connection";
               Go_handOff "wireguard" 0%nat]
       /\ In (Dialed 6000 "10.0.0.5" 51000 (inl 0%nat)) t
       /\ In (Go_ping 0%nat) t.
Proof.
  exact (serve_hands_off_after_cancel samplePinger 0%nat
           (mkArrival sampleRequest answering) eq_refl eq_refl).
Defined.

(** ** More on the consumer side *)

(** X11. With its socket open, [PingProvider] returns what the race
    returns, [nil] or the timeout error, closes the socket exactly once, as
    its last effect, and never hands it off; on success it returns 200 ms
    after the race ended, the race having started 200 ms after the sender was
    launched.  When the race never returns neither does [PingProvider], and
    the socket stays open. *)
Theorem PingProvider_results (p : Pinger) (fresh : Conn) (env : NetEnv)
    (ip : string) (port : Z) :
  resolveErr env = None ->
  dialErr env = None ->
  let race := pingReceiver fresh (senderListening fresh (ticks env))
                (reads env) in
  let run := PingProvider p fresh env ip port in
  snd run = snd race
  /\ handoffs (fst run) = 0%nat
  /\ launches (fst run) = 1%nat
  /\ (forall res, snd race = Returned res ->
        closes_of fresh (fst run) = 1%nat
        /\ (exists t, fst run = t ++ [Close fresh])
        /\ elapsed (fst run)
           = pingInterval + elapsed (fst race)
             + match res with None => 200 | Some _ => 0 end)
  /\ (forall b, snd race = Blocked b -> closes_of fresh (fst run) = 0%nat).
Proof.
  intros Hr Hd. cbn zeta. rewrite (PingProvider_dialled _ _ _ _ _ Hr Hd).
  pose proof (receiveLoop_effects fresh (senderListening fresh (ticks env))
                (reads env) 0) as Hrec.
  fold (pingReceiver fresh (senderListening fresh (ticks env)) (reads env))
    in Hrec.
  destruct (pingReceiver fresh (senderListening fresh (ticks env))
              (reads env)) as [t [[e |] | b]]; cbn [fst snd prepend] in *.
  all: assert (R1 : handoffs t = 0%nat)
    by (eapply (filter_none _ receiverEffect); [| exact Hrec];
        intros [] H; try discriminate H; reflexivity).
  all: assert (R2 : launches t = 0%nat)
    by (eapply (filter_none _ receiverEffect); [| exact Hrec];
        intros [] H; try discriminate H; reflexivity).
  all: assert (R3 : closes_of fresh t = 0%nat)
    by (eapply (filter_none _ receiverEffect); [| exact Hrec];
        intros [] H; try discriminate H; reflexivity).
  all: unfold handoffs, launches, closes_of in *.
  all: cbn [app filter List.length elapsed duration].
  all: rewrite ?filter_length_app, ?elapsed_app, ?R1, ?R2, ?R3.
  all: cbn [filter List.length elapsed duration]; rewrite ?Nat.eqb_refl.
  all: split; [reflexivity | split; [reflexivity | split; [reflexivity |]]].
  all: split; [intros res Hres; inversion Hres; subst
              | intros b' Hb'; try discriminate Hb'; try reflexivity].
  - split; [reflexivity | split; [| lia]].
    eexists. rewrite !app_comm_cons. reflexivity.
  - split; [reflexivity | split; [| cbn [List.length]; lia]].
    eexists. rewrite !app_comm_cons.
    change [Sleep 200; Close fresh] with ([Sleep 200] ++ [Close fresh]).
    rewrite app_assoc. reflexivity.
Qed.

Lemma PingProvider_results_witness :
  let run := PingProvider samplePinger 0%nat refusing "203.0.113.7" 4000 in
  snd run = Returned (Some "NAT punch attempt timed out")
  /\ closes_of 0%nat (fst run) = 1%nat
  /\ elapsed (fst run) = 10200.
Proof.
  cbv zeta.
  destruct (PingProvider_results samplePinger 0%nat refusing "203.0.113.7"
              4000 eq_refl eq_refl) as [Ho [_ [_ [Hres _]]]].
  destruct (Hres (Some "NAT punch attempt timed out"))
    as [Hc [_ He]]; [vm_compute; reflexivity |].
  split; [rewrite Ho; vm_compute; reflexivity |].
  split; [exact Hc |]. rewrite He. vm_compute. reflexivity.
Defined.

(** X12. When the address cannot be resolved or the socket cannot be
    dialled, [PingProvider] returns that error wrapped as a connection
    failure, at once: no sender is launched, nothing is read, nothing is
    closed, and after a failed resolution no dial is attempted. *)
Theorem PingProvider_connection_failure (p : Pinger) (fresh : Conn)
    (env : NetEnv) (ip : string) (port : Z) (e : error) :
  (resolveErr env = Some e
   \/ (resolveErr env = None /\ dialErr env = Some e)) ->
  let run := PingProvider p fresh env ip port in
  snd run = Returned (Some ("failed to get connection: " ++ e)%string)
  /\ Forall (fun x => noAttempt x = true) (fst run)
  /\ elapsed (fst run) = 0
  /\ (resolveErr env = Some e -> localPorts (fst run) = []).
Proof.
  intros H. cbn zeta. unfold PingProvider, getConnection.
  destruct H as [Hr | [Hr Hd]]; rewrite Hr; [| rewrite Hd];
    autorewrite with run; cbn [prepend fst snd ret app];
    repeat split; try discriminate; repeat constructor.
Qed.

Lemma PingProvider_connection_failure_witness :
  PingProvider samplePinger 0%nat
    (mkNet None (Some "address already in use") [] []) "203.0.113.7" 4000
  = ([Log Info "NAT pinging to provider"; Resolved "203.0.113.7" 4000 None;
      Log Info "remote socket: ";
      Dialed 0 "203.0.113.7" 4000 (inr "address already in use")],
     Returned (Some "failed to get connection: address already in use")).
Proof.
  pose proof (PingProvider_connection_failure samplePinger 0%nat
                (mkNet None (Some "address already in use") [] [])
                "203.0.113.7" 4000 "address already in use"
                (or_intror (conj eq_refl eq_refl))) as [Ho _].
  rewrite (surjective_pairing (PingProvider _ _ _ _ _)), Ho. reflexivity.
Defined.

Lemma dispatchLoop_ignores_consumerPort (p : Pinger) (port : Z)
    (queue : list Arrival) :
  forall fresh : Conn,
    dispatchLoop (BindConsumerPort p port) fresh queue
    = dispatchLoop p fresh queue.
Proof.
  induction queue as [| a queue IH]; intros fresh; cbn [dispatchLoop];
    [reflexivity |].
  change (serve (BindConsumerPort p port) fresh a) with (serve p fresh a).
  unfold bind. destruct (serve p fresh a) as [t [[] | b]]; [| reflexivity].
  now rewrite IH.
Qed.

(** X13. [BindConsumerPort] only sets the port the consumer side dials from:
    the last port bound is the one [PingProvider] uses, whatever was bound
    before, and the provider side is not affected; [Start] runs the same
    after any binding. *)
Theorem BindConsumerPort_last_wins (p : Pinger) (first second : Z)
    (fresh : Conn) (env : NetEnv) (ip : string) (port : Z) :
  resolveErr env = None ->
  localPorts (fst (PingProvider
                     (BindConsumerPort (BindConsumerPort p first) second)
                     fresh env ip port)) = [second]
  /\ PingProvider (BindConsumerPort (BindConsumerPort p first) second)
       fresh env ip port
     = PingProvider (BindConsumerPort p second) fresh env ip port
  /\ (forall (SuccessEventType : string) (queue : list Arrival),
        Start SuccessEventType (BindConsumerPort p second) queue
        = Start SuccessEventType p queue).
Proof.
  intros Hr. split; [| split].
  - now rewrite PingProvider_localPorts.
  - reflexivity.
  - intros S queue. unfold Start.
    change (natEventWaiter (BindConsumerPort p second))
      with (natEventWaiter p).
    rewrite !bind_emit.
    destruct (Type_ (WaitForEvent (natEventWaiter p)) =? S)%string;
      [reflexivity |].
    now rewrite dispatchLoop_ignores_consumerPort.
Qed.

Lemma BindConsumerPort_last_wins_witness :
  localPorts (fst (PingProvider
                     (BindConsumerPort (BindConsumerPort samplePinger 40000)
                        50000)
                     0%nat answering "203.0.113.7" 4000)) = [50000].
Proof.
  exact (proj1 (BindConsumerPort_last_wins samplePinger 40000 50000 0%nat
                  answering "203.0.113.7" 4000 eq_refl)).
Defined.

(** X14. [Start] returns exactly when the event waiter delivers the success
    event; on any other event it never returns, whatever is put on the
    queue: it ends waiting for the next request, or blocked inside an
    attempt. *)
Theorem Start_returns_iff_success (SuccessEventType : string) (p : Pinger)
    (queue : list Arrival) :
  (snd (Start SuccessEventType p queue) = Returned tt
   <-> Type_ (WaitForEvent (natEventWaiter p)) = SuccessEventType)
  /\ (Type_ (WaitForEvent (natEventWaiter p)) <> SuccessEventType ->
      snd (Start SuccessEventType p queue) = Blocked OnQueue
      \/ snd (Start SuccessEventType p queue) = Blocked InRead
      \/ snd (Start SuccessEventType p queue) = Blocked OnCancelSend).
Proof.
  assert (Hloop : forall fresh,
             snd (dispatchLoop p fresh queue) = Blocked OnQueue
             \/ snd (dispatchLoop p fresh queue) = Blocked InRead
             \/ snd (dispatchLoop p fresh queue) = Blocked OnCancelSend).
  { induction queue as [| a queue IH]; intros fresh; cbn [dispatchLoop];
      [now left |].
    unfold bind.
    destruct (serve p fresh a) as [t [[] | b]] eqn:Es.
    - specialize (IH (S fresh)).
      destruct (dispatchLoop p (S fresh) queue) as [t' o']. exact IH.
    - cbn [snd].
      destruct (skipped p a || undialable a) eqn:Hs.
      + destruct (serve_passes_over p fresh a Hs) as [Hr _].
        rewrite Es in Hr. discriminate Hr.
      + pose proof (receiveLoop_outcomes fresh
                      (senderListening fresh (ticks (net a)))
                      (reads (net a)) 0) as Ho.
        cbn zeta in Ho.
        fold (pingReceiver fresh (senderListening fresh (ticks (net a)))
                (reads (net a))) in Ho.
        fold (raceOf fresh a) in Ho.
        destruct (snd (raceOf fresh a)) as [o | b'] eqn:Er.
        * assert (Hret : returns (raceOf fresh a) = true)
            by (unfold returns; now rewrite Er).
          pose proof (serve_returns_with_race p fresh a Hret) as Hr.
          rewrite Es in Hr. discriminate Hr.
        * pose proof (serve_blocks_with_race p fresh a b' Hs Er) as Hb.
          rewrite Es in Hb. cbn [snd] in Hb. injection Hb as ->.
          destruct Ho as [Ho | [Ho | [Ho | Ho]]]; try discriminate Ho;
            injection Ho as ->; tauto. }
  unfold Start. rewrite !bind_emit.
  destruct (String.eqb_spec (Type_ (WaitForEvent (natEventWaiter p)))
              SuccessEventType) as [E | E]; cbn [prepend snd].
  - split; [split; [intros _; exact E | reflexivity] | contradiction].
  - split; [| intros _; apply Hloop].
    split; [| contradiction].
    intros H. destruct (Hloop 0%nat) as [Ho | [Ho | Ho]];
      rewrite Ho in H; discriminate H.
Qed.

Lemma Start_returns_iff_success_witness :
  snd (Start "success" samplePinger [mkArrival sampleRequest answering])
  = Blocked OnQueue
  \/ snd (Start "success" samplePinger [mkArrival sampleRequest answering])
     = Blocked InRead
  \/ snd (Start "success" samplePinger [mkArrival sampleRequest answering])
     = Blocked OnCancelSend.
Proof.
  apply (proj2 (Start_returns_iff_success "success" samplePinger
                  [mkArrival sampleRequest answering])).
  discriminate.
Defined.

(** ** The wireguard connection *)

Ltac wg_run :=
  cbv beta iota zeta
      delta [Wireguard.Start Wireguard.Stop Wireguard.Wait Wireguard.bind
             Wireguard.send Wireguard.Add Wireguard.call
             Wireguard.setEndpoint Wireguard.close Wireguard.logError
             Wireguard.ret Wireguard.fresh fst snd
             Wireguard.connection Wireguard.sent Wireguard.closed
             Wireguard.connectionEndpoint Wireguard.calls Wireguard.logged
             Wireguard.epStart Wireguard.epAddPeer Wireguard.epStop].

(** X15. On an open state channel and with an endpoint created, [Start]
    never panics; it returns the error of the endpoint's [Start], else that
    of [AddPeer], else [nil].  It reports [Connecting] and then
    [Connected] on success or [NotConnected] on failure, leaves the
    WaitGroup counter one higher on success and unchanged on failure, does
    not call [AddPeer] after a failed [Start], and never stops the endpoint,
    also not when [AddPeer] fails on a started endpoint. *)
Theorem wg_Start_outcomes (c : Wireguard.Connection) (ep : Wireguard.Endpoint) :
  Wireguard.closed c = false ->
  0 <= Wireguard.connection c ->
  let res := match Wireguard.epStart ep with
             | Some e => Some e
             | None => Wireguard.epAddPeer ep
             end in
  exists c' : Wireguard.Connection,
    Wireguard.Start (Some ep, None) c = Wireguard.Done res c'
    /\ Wireguard.sent c'
       = Wireguard.sent c
         ++ [Wireguard.Connecting;
             match res with
             | None => Wireguard.Connected
             | Some _ => Wireguard.NotConnected
             end]
    /\ Wireguard.connection c'
       = Wireguard.connection c + match res with None => 1 | Some _ => 0 end
    /\ Wireguard.closed c' = false
    /\ Wireguard.connectionEndpoint c' = Some ep
    /\ Wireguard.calls c'
       = Wireguard.calls c
         ++ Wireguard.CallStart
         :: match Wireguard.epStart ep with
            | None => [Wireguard.CallAddPeer]
            | Some _ => []
            end.
Proof.
  destruct c as [n s cl ep0 cs lg]. destruct ep as [es ea et].
  cbn [Wireguard.closed Wireguard.connection].
  intros -> Hn. cbn zeta. wg_run.
  destruct (Z.ltb_spec (n + 1) 0) as [Hlt | _]; [lia |].
  destruct es as [e |]; [| destruct ea as [e |]];
    try (destruct (Z.ltb_spec (n + 1 + -1) 0) as [Hlt | _]; [lia |]);
    eexists; (split; [reflexivity |]); wg_run;
    rewrite <- ?app_assoc; repeat split; lia.
Qed.

Lemma wg_Start_outcomes_witness :
  exists c' : Wireguard.Connection,
    Wireguard.Start (Some (Wireguard.mkEndpoint None (Some "bad peer") None),
                     None) Wireguard.fresh
    = Wireguard.Done (Some "bad peer") c'
    /\ Wireguard.sent c' = [Wireguard.Connecting; Wireguard.NotConnected]
    /\ Wireguard.connection c' = 0.
Proof.
  destruct (wg_Start_outcomes Wireguard.fresh
              (Wireguard.mkEndpoint None (Some "bad peer") None)
              eq_refl ltac:(cbv; discriminate)) as [c' [E [Hs [Hn _]]]].
  exists c'. split; [exact E | split; [exact Hs | exact Hn]].
Defined.

(** X16. A [Start] that succeeded followed by [Stop] reports, in this
    order, [Connecting], [Connected], [Disconnecting], [NotConnected], then
    closes the state channel; the endpoint is started, given its peer and
    stopped, once each; the WaitGroup counter is back where it was, so that
    [Wait], which blocks between the two calls, returns [nil] afterwards.
    An error of the endpoint's [Stop] is logged and changes nothing else. *)
Theorem wg_Start_Stop (c : Wireguard.Connection) (ep : Wireguard.Endpoint) :
  Wireguard.closed c = false ->
  Wireguard.connection c = 0 ->
  Wireguard.epStart ep = None ->
  Wireguard.epAddPeer ep = None ->
  exists c1 c2 : Wireguard.Connection,
    Wireguard.Start (Some ep, None) c = Wireguard.Done None c1
    /\ Wireguard.Wait c1 = Wireguard.Waiting c1
    /\ Wireguard.Stop c1 = Wireguard.Done tt c2
    /\ Wireguard.Wait c2 = Wireguard.Done None c2
    /\ Wireguard.sent c2
       = Wireguard.sent c
         ++ [Wireguard.Connecting; Wireguard.Connected;
             Wireguard.Disconnecting; Wireguard.NotConnected]
    /\ Wireguard.closed c2 = true
    /\ Wireguard.calls c2
       = Wireguard.calls c
         ++ [Wireguard.CallStart; Wireguard.CallAddPeer; Wireguard.CallStop]
    /\ Wireguard.logged c2
       = Wireguard.logged c
         ++ match Wireguard.epStop ep with
            | Some _ => ["Failed to close wireguard connection"]
            | None => []
            end.
Proof.
  destruct c as [n s cl ep0 cs lg]. destruct ep as [es ea et].
  cbn [Wireguard.closed Wireguard.connection Wireguard.epStart
       Wireguard.epAddPeer Wireguard.epStop].
  intros -> -> -> ->.
  destruct et as [e |]; (eexists; eexists);
    (split; [wg_run; reflexivity |]);
    (split; [reflexivity |]);
    (split; [wg_run; reflexivity |]);
    wg_run; rewrite <- ?app_assoc, ?app_nil_r; repeat split; reflexivity.
Qed.

Lemma wg_Start_Stop_witness :
  exists c1 c2 : Wireguard.Connection,
    Wireguard.Start (Some (Wireguard.mkEndpoint None None (Some "busy")),
                     None) Wireguard.fresh
    = Wireguard.Done None c1
    /\ Wireguard.Stop c1 = Wireguard.Done tt c2
    /\ Wireguard.sent c2
       = [Wireguard.Connecting; Wireguard.Connected;
          Wireguard.Disconnecting; Wireguard.NotConnected]
    /\ Wireguard.closed c2 = true.
Proof.
  destruct (wg_Start_Stop Wireguard.fresh
              (Wireguard.mkEndpoint None None (Some "busy"))
              eq_refl eq_refl eq_refl eq_refl)
    as [c1 [c2 [E1 [_ [E2 [_ [Hs [Hc _]]]]]]]].
  exists c1, c2. repeat split; assumption.
Defined.




(** X18. [Stop] cannot be repeated and a stopped connection cannot be
    started again: whenever [Stop] has returned, the state channel is
    closed, and a second [Stop] panics on its first send without touching
    the endpoint; a [Start] with a new endpoint panics on its first send
    too, after it has raised the WaitGroup counter. *)
Theorem wg_Stop_is_final (c c' : Wireguard.Connection) :
  Wireguard.Stop c = Wireguard.Done tt c' ->
  Wireguard.closed c' = true
  /\ Wireguard.Stop c' = Wireguard.Panic "send on closed channel" c'
  /\ forall ep : Wireguard.Endpoint,
       exists c'' : Wireguard.Connection,
         Wireguard.Start (Some ep, None) c'
         = Wireguard.Panic "send on closed channel" c''
         /\ Wireguard.connection c'' = Wireguard.connection c' + 1
         /\ Wireguard.calls c'' = Wireguard.calls c'.
Proof.
  destruct c as [n s cl ep0 cs lg]. wg_run.
  destruct cl; [discriminate |].
  destruct ep0 as [[es ea et] |]; [| discriminate].
  destruct et as [e |]; wg_run;
    (destruct (Z.ltb_spec (n + -1) 0) as [Hlt | Hge]; [discriminate |]);
    intros H; injection H as <-; wg_run;
    (split; [reflexivity | split; [reflexivity |]]);
    intros ep;
    (destruct (Z.ltb_spec (n + -1 + 1) 0) as [Hlt | _]; [lia |]);
    eexists; (split; [reflexivity |]); split; reflexivity.
Qed.

Lemma wg_Stop_is_final_witness :
  exists c' : Wireguard.Connection,
    Wireguard.Stop (Wireguard.mkConnection 1 [] false
                      (Some (Wireguard.mkEndpoint None None None)) [] [])
    = Wireguard.Done tt c'
    /\ Wireguard.Stop c' = Wireguard.Panic "send on closed channel" c'.
Proof.
  eexists. split; [reflexivity |].
  exact (proj1 (proj2 (wg_Stop_is_final
                         (Wireguard.mkConnection 1 [] false
                            (Some (Wireguard.mkEndpoint None None None))
                            [] [])
                         _ eq_refl))).
Defined.

(** X19. [GenerateConnectionParams] returns key material only without an
    error: when generating the private key or deriving the public key fails
    it returns that error with both keys empty, the private key that was
    generated included; otherwise it returns the generated private key with
    the public key derived from it, and no error. *)
Theorem wg_GenerateConnectionParams_all_or_nothing
    (generated : string + error) (derive : string -> string + error) :
  match Wireguard.GenerateConnectionParams generated derive with
  | (pub, priv, Some e) =>
      pub = "" /\ priv = ""
      /\ (generated = inr e
          \/ exists k, generated = inl k /\ derive k = inr e)
  | (pub, priv, None) => generated = inl priv /\ derive priv = inl pub
  end.
Proof.
  unfold Wireguard.GenerateConnectionParams.
  destruct generated as [k | e]; [| repeat split; now left].
  destruct (derive k) as [pk | e] eqn:E.
  - split; [reflexivity | exact E].
  - repeat split. right. now exists k.
Qed.
